(** * Ownership-based merge-request approval (reconcile/gitlab_owners.py)

    A shallow embedding of [ProjectOwners], [MRApproval] and the loop body of
    [run], with the properties of the approval reconciler stated over it.

    Modelling conventions

    - A Python [str] is a [string]; its characters are read as code points
      below 256, ordered by code point ([String.le]).
    - A Python [dict] is an association list in insertion order: re-assigning
      a key keeps its position ([dict_set]), iteration follows the list.
    - A Python [set] of strings is a [gset string].  The order in which a set
      is iterated depends on the hash seed of the process; it is the section
      variable [set_iter], of which only "enumerates the set" is known.
    - Exceptions are values of [exn]; a computation that can raise returns a
      [result].
    - Timestamps are the instants obtained by [dateparser.parse], as [Z].
    - Library calls whose code is not part of the repository
      ([yaml.safe_load], [base64.b64decode], [pathlib], [json.loads]) are
      section variables; [json.dumps], [repr], [lstrip] and [rstrip] are
      written out for the values the code passes to them.
    - The queries of [ProjectOwners] are stated for an owners map whose
      approvers are lists of strings; [_get_owners_map] stores whatever the
      YAML document holds under [approvers]. *)

From Stdlib Require Import ZArith Ascii String.
From stdpp Require Import base list strings sorting gmap.

Set Warnings "-register-all".

Local Open Scope string_scope.
Local Open Scope list_scope.
Local Open Scope Z_scope.

(** ** Python values *)

Inductive exn : Type :=
  | KeyError
  | TypeError
  | YAMLError
  | DecodeError
  | JSONDecodeError
  | RecursionError
  | OwnerNotFoundError.

Inductive result (A : Type) : Type :=
  | Ok (a : A)
  | Raise (e : exn).

Arguments Ok {A} a.
Arguments Raise {A} e.

#[global] Instance exn_eq_dec : EqDecision exn.
Proof. solve_decision. Defined.

(** Insertion-ordered dictionaries keyed by strings. *)
Abbreviation dict V := (list (string * V)).

Fixpoint dict_get {V : Type} (d : dict V) (k : string) : option V :=
  match d with
  | [] => None
  | (k', v) :: d' => if String.eqb k k' then Some v else dict_get d' k
  end.

Fixpoint dict_set {V : Type} (d : dict V) (k : string) (v : V) : dict V :=
  match d with
  | [] => [(k, v)]
  | (k', v') :: d' =>
      if String.eqb k k' then (k', v) :: d' else (k', v') :: dict_set d' k v
  end.

Definition dict_keys {V : Type} (d : dict V) : list string := d.*1.

(** [path.startswith(owned_path)]. *)
Definition startswith (path owned_path : string) : bool :=
  String.prefix owned_path path.

(** [max(candidates, key=len)] on a non-empty list [c :: cs]: the first
    element of greatest length. *)
Definition max_by_len (c : string) (cs : list string) : string :=
  foldl (λ best x,
           if (String.length best <? String.length x)%nat then x else best)
        c cs.

(** [sorted] on strings. *)
Definition sorted (l : list string) : list string := merge_sort String.le l.

(** ** ProjectOwners *)

Section ProjectOwners.

(** Iteration order of a set object. *)
Variable set_iter : gset string → list string.

(** [self._owners_map]: owned directory to its approvers. *)
Abbreviation owners_map_t := (dict (list string)).

(** The loop of [get_all_owners], from the set gathered so far. *)
Definition path_owners_from (acc : gset string)
    (owners_map : owners_map_t) (path : string) : gset string :=
  foldl (λ acc '(owned_path, owners),
           if startswith path owned_path
           then acc ∪ list_to_set owners
           else acc)
        acc owners_map.

Definition get_all_owners (owners_map : owners_map_t) (path : string)
  : result (list string) :=
  let path_owners := path_owners_from ∅ owners_map path in
  if decide (path_owners = ∅) then Raise KeyError
  else Ok (sorted (set_iter path_owners)).

Definition get_closest_owners (owners_map : owners_map_t) (path : string)
  : result (list string) :=
  let candidates :=
    List.filter (λ owned_path, startswith path owned_path)
                (dict_keys owners_map) in
  match candidates with
  | [] => Raise KeyError
  | c :: cs =>
      let elected := max_by_len c cs in
      match dict_get owners_map elected with
      | Some owners => Ok (sorted (set_iter (list_to_set owners)))
      | None => Raise KeyError
      end
  end.

End ProjectOwners.

(** ** Building the owners map *)

(** A document as [yaml.safe_load] returns it. *)
Inductive yaml_value : Type :=
  | YNull
  | YBool (b : bool)
  | YInt (z : Z)
  | YStr (s : string)
  | YSeq (items : list yaml_value)
  | YMap (entries : list (yaml_value * yaml_value)).

(** [doc[key]] for a string [key]: only a mapping can be subscripted by a
    string, and a mapping without the key raises [KeyError]. *)
Fixpoint yaml_entries_get (entries : list (yaml_value * yaml_value))
    (key : string) : result yaml_value :=
  match entries with
  | [] => Raise KeyError
  | (YStr k, v) :: rest =>
      if String.eqb key k then Ok v else yaml_entries_get rest key
  | _ :: rest => yaml_entries_get rest key
  end.

Definition yaml_getitem (doc : yaml_value) (key : string)
  : result yaml_value :=
  match doc with
  | YMap entries => yaml_entries_get entries key
  | _ => Raise TypeError
  end.

(** The approvers of a declaration when they are a list of strings. *)
Definition approvers_of_yaml (approvers : yaml_value)
  : option (list string) :=
  match approvers with
  | YSeq items =>
      mapM (λ item, match item with YStr s => Some s | _ => None end) items
  | _ => None
  end.

(** An entry of [get_repository_tree]. *)
Record tree_item : Type := TreeItem {
  item_id : string;
  item_name : string;
  item_type : string;
  item_path : string
}.

Inductive log_record : Type :=
  | LogNotAbleToLoad (path : string)
  | LogAlreadyApproved
  | LogApprovingNow
  | LogRemovingApproval
  | LogPublishingReport
  | LogNotFullyApproved.

Section OwnersMap.

(** The collaborators of [_get_owners_map]: the blob store of the project,
    [base64.b64decode(...).decode()], [yaml.safe_load] and
    [str(pathlib.Path(...).parent)]. *)
Variable repository_blob_content : string → string.
Variable b64decode_decode : string → result string.
Variable safe_load : string → result yaml_value.
Variable path_parent : string → string.

(** [yaml.safe_load(content)['approvers']], the body of the [try]. *)
Definition load_approvers (content : string) : result yaml_value :=
  match safe_load content with
  | Raise e => Raise e
  | Ok doc => yaml_getitem doc "approvers"
  end.

(** One turn of the loop of [_get_owners_map] on the map and the log built
    so far. *)
Definition owners_map_step (st : dict yaml_value * list log_record)
    (item : tree_item) : result (dict yaml_value * list log_record) :=
  let '(owners_map, log) := st in
  if negb (String.eqb (item_name item) "OWNERS") then Ok st
  else if negb (String.eqb (item_type item) "blob") then Ok st
  else
    match b64decode_decode (repository_blob_content (item_id item)) with
    | Raise e => Raise e
    | Ok content =>
        let owners_path := path_parent (item_path item) in
        match load_approvers content with
        | Raise KeyError =>
            Ok (owners_map,
                (log ++ [LogNotAbleToLoad (item_path item)])%list)
        | Raise e => Raise e
        | Ok approvers =>
            Ok (dict_set owners_map owners_path approvers, log)
        end
    end.

Fixpoint owners_map_loop (st : dict yaml_value * list log_record)
    (repo_tree : list tree_item)
  : result (dict yaml_value * list log_record) :=
  match repo_tree with
  | [] => Ok st
  | item :: rest =>
      match owners_map_step st item with
      | Ok st' => owners_map_loop st' rest
      | Raise e => Raise e
      end
  end.

Definition _get_owners_map (repo_tree : list tree_item)
  : result (dict yaml_value * list log_record) :=
  owners_map_loop ([], []) repo_tree.

End OwnersMap.

(** ** Text: [repr], [json.dumps], [lstrip] and [rstrip] *)

Definition ord (c : ascii) : N := N_of_ascii c.

Definition backslash : ascii := "092"%char.
Definition dquote : ascii := "034"%char.
Definition squote : ascii := "039"%char.
Definition backtick : ascii := "096"%char.
Definition tab : ascii := "009"%char.
Definition nl : ascii := "010"%char.
Definition cr : ascii := "013"%char.
Definition backspace : ascii := "008"%char.
Definition formfeed : ascii := "012"%char.

Definition str1 (c : ascii) : string := String c EmptyString.

Definition hex_digit (n : N) : ascii :=
  match n with
  | 0 => "0" | 1 => "1" | 2 => "2" | 3 => "3" | 4 => "4" | 5 => "5"
  | 6 => "6" | 7 => "7" | 8 => "8" | 9 => "9" | 10 => "a" | 11 => "b"
  | 12 => "c" | 13 => "d" | 14 => "e" | _ => "f"
  end%N%char.

Definition hex2 (c : ascii) : string :=
  String (hex_digit (ord c / 16)) (str1 (hex_digit (ord c mod 16))).

Fixpoint str_flat_map (f : ascii → string) (s : string) : string :=
  match s with
  | EmptyString => EmptyString
  | String c s' => f c +:+ str_flat_map f s'
  end.

Fixpoint char_in (c : ascii) (s : string) : bool :=
  match s with
  | EmptyString => false
  | String c' s' => Ascii.eqb c c' || char_in c s'
  end.

(** [str.isprintable] on one code point below 256. *)
Definition isprintable (c : ascii) : bool :=
  ((32 <=? ord c) && (ord c <? 127) || (161 <=? ord c) && negb (ord c =? 173))%N.

Definition repr_char (quote c : ascii) : string :=
  if Ascii.eqb c quote || Ascii.eqb c backslash then String backslash (str1 c)
  else if Ascii.eqb c tab then String backslash "t"
  else if Ascii.eqb c nl then String backslash "n"
  else if Ascii.eqb c cr then String backslash "r"
  else if isprintable c then str1 c
  else String backslash ("x" +:+ hex2 c).

(** [repr(s)] for a string: single quotes, unless the string holds a single
    quote and no double quote. *)
Definition repr_str (s : string) : string :=
  let quote :=
    if char_in squote s && negb (char_in dquote s) then dquote else squote in
  String quote (str_flat_map (repr_char quote) s +:+ str1 quote).

(** [repr(l)], which is what an f-string renders for a list. *)
Definition repr_list (l : list string) : string :=
  "[" +:+ String.concat ", " (repr_str <$> l) +:+ "]".

(** [json.dumps] of a string with the default [ensure_ascii]. *)
Definition json_escape_char (c : ascii) : string :=
  if Ascii.eqb c dquote || Ascii.eqb c backslash then String backslash (str1 c)
  else if Ascii.eqb c nl then String backslash "n"
  else if Ascii.eqb c cr then String backslash "r"
  else if Ascii.eqb c tab then String backslash "t"
  else if Ascii.eqb c backspace then String backslash "b"
  else if Ascii.eqb c formfeed then String backslash "f"
  else if ((32 <=? ord c) && (ord c <? 127))%N then str1 c
  else String backslash ("u00" +:+ hex2 c).

Definition json_string (s : string) : string :=
  String dquote (str_flat_map json_escape_char s +:+ str1 dquote).

(** [json.dumps(report, indent=4)] for a dictionary of strings: the members
    in the iteration order of the dictionary, no [sort_keys]. *)
Definition json_dumps (report : dict string) : string :=
  match report with
  | [] => "{}"
  | _ =>
      "{" +:+ str1 nl
      +:+ String.concat ("," +:+ str1 nl)
           ((λ '(k, v), "    " +:+ json_string k +:+ ": " +:+ json_string v)
              <$> report)
      +:+ str1 nl +:+ "}"
  end.

(** [s.lstrip(chars)] and [s.rstrip(chars)]: [chars] is a set of
    characters. *)
Fixpoint lstrip (chars : string) (s : string) : string :=
  match s with
  | EmptyString => EmptyString
  | String c s' => if char_in c chars then lstrip chars s' else s
  end.

Definition rstrip (chars : string) (s : string) : string :=
  String.rev (lstrip chars (String.rev s)).

Definition fence_open : string := "```" +:+ str1 nl.
Definition fence_close : string := str1 nl +:+ "```".

(** A document as [json.loads] returns it. *)
Inductive json_value : Type :=
  | JNull
  | JBool (b : bool)
  | JNumber (lexeme : string)
  | JString (s : string)
  | JArray (items : list json_value)
  | JObject (members : dict json_value).

(** [body == report] where [report] is a dictionary of strings: equal
    dictionaries have the same size and agree on every key of the first. *)
Definition json_eq_report (body : json_value) (report : dict string) : bool :=
  match body with
  | JObject members =>
      (length members =? length report)%nat
      && forallb (λ '(k, v),
                    match dict_get report k, v with
                    | Some m, JString s => String.eqb s m
                    | _, _ => false
                    end)
                 members
  | _ => false
  end.

(** ** MRApproval *)

(** A note of a merge request, as [get_merge_request_comments] lists it;
    [created_at] is the parsed instant. *)
Record comment : Type := Comment {
  username : string;
  body : string;
  created_at : Z
}.

(** What the GitLab client reports about one merge request, with the
    creation time of its top commit. *)
Record merge_request : Type := MergeRequest {
  changed_paths : list string;
  comments : list comment;
  labels : list string;
  top_commit_created_at : Z
}.

Record change_owners : Type := ChangeOwners {
  owners : list string;
  closest_owners : list string
}.

Record approval_status : Type := ApprovalStatus {
  approved : bool;
  report : option string
}.

Definition APPROVAL_LABEL : string := "approved".

(** The calls [run] makes on the GitLab client, and its log records. *)
Inductive event : Type :=
  | Log (r : log_record)
  | add_label_to_merge_request (label : string)
  | remove_label_from_merge_request (label : string)
  | notes_create (note_body : string).

Definition is_directive (e : event) : bool :=
  match e with
  | Log _ => false
  | _ => true
  end.

Definition directives (trace : list event) : list event :=
  List.filter is_directive trace.

Definition report_message (closest : list string) : string :=
  "one of " +:+ repr_list closest +:+ " needs to approve the change".

Section MRApproval.

Variable set_iter : gset string → list string.

(** [json.loads] and [self.gitlab.user.username]. *)
Variable json_loads : string → result json_value.
Variable bot_username : string.

Variable owners_map : dict (list string).
Variable mr : merge_request.

Fixpoint change_owners_loop (change_owners_map : dict change_owners)
    (paths : list string) : result (dict change_owners) :=
  match paths with
  | [] => Ok change_owners_map
  | path :: rest =>
      match get_all_owners set_iter owners_map path with
      | Raise KeyError => Raise OwnerNotFoundError
      | Raise e => Raise e
      | Ok all =>
          match get_closest_owners set_iter owners_map path with
          | Raise KeyError => Raise OwnerNotFoundError
          | Raise e => Raise e
          | Ok closest =>
              change_owners_loop
                (dict_set change_owners_map path
                   {| owners := all; closest_owners := closest |})
                rest
          end
      end
  end.

Definition get_change_owners_map : result (dict change_owners) :=
  change_owners_loop [] (changed_paths mr).

Fixpoint lgtms_loop (cs : list comment) : list string :=
  match cs with
  | [] => []
  | c :: rest =>
      if negb (String.eqb (body c) "/lgtm") then lgtms_loop rest
      else if created_at c <? top_commit_created_at mr then lgtms_loop rest
      else username c :: lgtms_loop rest
  end.

Definition get_lgtms : list string := lgtms_loop (comments mr).

(** The inner loop over [change_owners['owners']]. *)
Definition change_approved (lgtms : list string) (co : change_owners)
  : bool :=
  foldl (λ acc owner, if bool_decide (owner ∈ lgtms) then true else acc)
        false (owners co).

(** The loop that fills [report]. *)
Definition build_report (lgtms : list string)
    (change_owners_map : dict change_owners) : dict string :=
  foldl (λ rep '(change_path, co),
           if change_approved lgtms co then rep
           else dict_set rep change_path
                  (report_message (closest_owners co)))
        [] change_owners_map.

(** The scan of the notes for one that already carries [rep]: [Ok true]
    stands for the early [return approval_status]. *)
Fixpoint report_already_posted (rep : dict string) (cs : list comment)
  : result bool :=
  match cs with
  | [] => Ok false
  | c :: rest =>
      if negb (String.eqb (username c) bot_username)
      then report_already_posted rep rest
      else if created_at c <? top_commit_created_at mr
      then report_already_posted rep rest
      else
        let json_body := rstrip fence_close (lstrip fence_open (body c)) in
        match json_loads json_body with
        | Ok decoded =>
            if json_eq_report decoded rep then Ok true
            else report_already_posted rep rest
        | Raise JSONDecodeError => report_already_posted rep rest
        | Raise e => Raise e
        end
  end.

Definition get_approval_status : result approval_status :=
  match get_change_owners_map with
  | Raise OwnerNotFoundError =>
      Ok {| approved := false; report := None |}
  | Raise e => Raise e
  | Ok change_owners_map =>
      let rep := build_report get_lgtms change_owners_map in
      match rep with
      | [] => Ok {| approved := true; report := None |}
      | _ =>
          match report_already_posted rep (comments mr) with
          | Raise e => Raise e
          | Ok true => Ok {| approved := false; report := None |}
          | Ok false =>
              let json_report := json_dumps rep in
              let markdown_json_report :=
                fence_open +:+ json_report +:+ fence_close in
              Ok {| approved := false;
                    report := Some markdown_json_report |}
          end
      end
  end.

Definition has_approval_label : bool :=
  bool_decide (APPROVAL_LABEL ∈ labels mr).

(** The body of the loop of [run] for one merge request: the calls and
    log records it makes, in order. *)
Definition run_merge_request (dry_run : bool) : result (list event) :=
  match get_approval_status with
  | Raise e => Raise e
  | Ok status =>
      if approved status then
        if has_approval_label then Ok [Log LogAlreadyApproved]
        else
          Ok ([Log LogApprovingNow]
              ++ (if negb dry_run
                  then [add_label_to_merge_request APPROVAL_LABEL]
                  else []))%list
      else
        let removal :=
          if negb dry_run then
            if has_approval_label
            then [Log LogRemovingApproval;
                  remove_label_from_merge_request APPROVAL_LABEL]
            else []
          else [] in
        match report status with
        | Some markdown_json_report =>
            Ok (removal ++ [Log LogPublishingReport]
                ++ (if negb dry_run
                    then [remove_label_from_merge_request APPROVAL_LABEL;
                          notes_create markdown_json_report]
                    else []))%list
        | None => Ok (removal ++ [Log LogNotFullyApproved])%list
        end
  end.

End MRApproval.


(** ** The specification's reading of [allOwners] *)

(** The union of the owner sets of every key that is a prefix of the path. *)
Definition owners_of_matching_keys (owners_map : dict (list string))
    (path : string) : gset string :=
  ⋃ ((λ '(_, os), list_to_set os)
       <$> List.filter (λ '(k, _), startswith path k) owners_map).

(** Some key of the index is a prefix of the path. *)
Definition has_matching_key (owners_map : dict (list string))
    (path : string) : Prop :=
  ∃ k, k ∈ dict_keys owners_map ∧ startswith path k = true.

(** Ownership resolution succeeds for a path: both queries return. *)
Definition resolves (set_iter : gset string → list string)
    (owners_map : dict (list string)) (path : string) : Prop :=
  ∃ all closest,
    get_all_owners set_iter owners_map path = Ok all
    ∧ get_closest_owners set_iter owners_map path = Ok closest.

(** A note that the scan for an earlier report looks into: written by the
    bot, not older than the top commit. *)
Definition qualifying (bot_username : string) (mr : merge_request)
    (c : comment) : Prop :=
  username c = bot_username ∧ top_commit_created_at mr ≤ created_at c.

(** The text handed to [json.loads] for a note. *)
Definition json_body_of (c : comment) : string :=
  rstrip fence_close (lstrip fence_open (body c)).

(** [json.loads] raises nothing but [JSONDecodeError]. *)
Definition only_decode_errors (json_loads : string → result json_value)
  : Prop :=
  ∀ s e, json_loads s = Raise e → e = JSONDecodeError.

(** The merge request with other notes. *)
Definition with_comments (mr : merge_request) (cs : list comment)
  : merge_request :=
  {| changed_paths := changed_paths mr;
     comments := cs;
     labels := labels mr;
     top_commit_created_at := top_commit_created_at mr |}.

(** An entry of the change-owners map holds the two answers of the index
    for its path. *)
Definition resolved_entry (set_iter : gset string → list string)
    (owners_map : dict (list string)) (entry : string * change_owners)
  : Prop :=
  get_all_owners set_iter owners_map entry.1 = Ok (owners entry.2)
  ∧ get_closest_owners set_iter owners_map entry.1
    = Ok (closest_owners entry.2).

(** The JSON object that holds the entries of a report. *)
Definition json_of_report (rep : dict string) : json_value :=
  JObject ((λ '(k, v), (k, JString v)) <$> rep).

(** ** Sample data *)

Definition sample_owners_map : dict (list string) :=
  [("dir", ["bob"; "alice"]); ("dir/sub", ["carol"])].

Definition sample_report : dict string :=
  [("dir/file.txt", report_message ["alice"; "bob"])].

(** A decoder that knows one document, the serialized [sample_report]. *)
Definition sample_json_loads (s : string) : result json_value :=
  if String.eqb s (json_dumps sample_report)
  then Ok (json_of_report sample_report)
  else Raise JSONDecodeError.

Definition sample_note : comment :=
  {| username := "bot";
     body := fence_open +:+ json_dumps sample_report +:+ fence_close;
     created_at := 11 |}.

Definition broken_note : comment :=
  {| username := "bot"; body := "not a report"; created_at := 11 |}.

(** Nobody voted; the approval label is absent. *)
Definition mr_unvoted : merge_request :=
  {| changed_paths := ["dir/file.txt"];
     comments := [];
     labels := [];
     top_commit_created_at := 10 |}.

(** An owner voted after the top commit. *)
Definition mr_voted : merge_request :=
  {| changed_paths := ["dir/file.txt"];
     comments := [Comment "alice" "/lgtm" 12];
     labels := [];
     top_commit_created_at := 10 |}.

(** An owner voted, but before the top commit. *)
Definition mr_stale_vote : merge_request :=
  {| changed_paths := ["dir/file.txt"];
     comments := [Comment "alice" "/lgtm" 5];
     labels := [];
     top_commit_created_at := 10 |}.

(** The bot has already posted the report; the label is still there. *)
Definition mr_reported : merge_request :=
  {| changed_paths := ["dir/file.txt"];
     comments := [broken_note; sample_note];
     labels := ["approved"];
     top_commit_created_at := 10 |}.

(** One changed path has no owner; the label is there. *)
Definition mr_unowned : merge_request :=
  {| changed_paths := ["dir/file.txt"; "other/x"];
     comments := [Comment "alice" "/lgtm" 12];
     labels := ["approved"];
     top_commit_created_at := 10 |}.

(** A tree with one empty [OWNERS] file, and collaborators that read it:
    [yaml.safe_load] of an empty document is [None]. *)
Definition empty_declaration_tree : list tree_item :=
  [{| item_id := "1"; item_name := "OWNERS"; item_type := "blob";
      item_path := "dir/OWNERS" |}].

Definition empty_blob (id : string) : string := EmptyString.

Definition sample_b64decode_decode (s : string) : result string :=
  match s with
  | EmptyString => Ok EmptyString
  | _ => Raise DecodeError
  end.

Definition sample_safe_load (s : string) : result yaml_value :=
  match s with
  | EmptyString => Ok YNull
  | _ => Raise YAMLError
  end.

Definition sample_path_parent (p : string) : string :=
  if String.eqb p "dir/OWNERS" then "dir" else ".".

(** [json.loads] reads back the serialized report of a merge request. *)
Definition reads_back_report (set_iter : gset string → list string)
    (json_loads : string → result json_value)
    (owners_map : dict (list string)) (mr : merge_request) : Prop :=
  ∀ change_owners_map,
    get_change_owners_map set_iter owners_map mr = Ok change_owners_map →
    json_loads (json_dumps (build_report (get_lgtms mr) change_owners_map))
    = Ok (json_of_report (build_report (get_lgtms mr) change_owners_map)).

(** The tree entries [_get_owners_map] reads: blobs named [OWNERS]. *)
Definition is_declaration (item : tree_item) : bool :=
  String.eqb (item_name item) "OWNERS" && String.eqb (item_type item) "blob".

(** A tree with a declaration, a file that is none and a directory named
    like one, with collaborators that read the first. *)
Definition sample_tree : list tree_item :=
  [{| item_id := "1"; item_name := "OWNERS"; item_type := "blob";
      item_path := "dir/OWNERS" |};
   {| item_id := "2"; item_name := "README"; item_type := "blob";
      item_path := "dir/README" |};
   {| item_id := "3"; item_name := "OWNERS"; item_type := "tree";
      item_path := "OWNERS" |}].

Definition sample_blob (id : string) : string :=
  if String.eqb id "1" then "YXBwcm92ZXJzOiBbYWxpY2VdCg==" else "?".

Definition sample_b64 (s : string) : result string :=
  if String.eqb s "YXBwcm92ZXJzOiBbYWxpY2VdCg=="
  then Ok "approvers: [alice]"
  else Raise DecodeError.

Definition sample_yaml (s : string) : result yaml_value :=
  if String.eqb s "approvers: [alice]"
  then Ok (YMap [(YStr "approvers", YSeq [YStr "alice"])])
  else Raise YAMLError.

(** * Cluster specifications (reconcile/ocm_clusters.py)

    The clusters of app-interface and of OCM are JSON-like values.  A
    cluster as the clusters query returns it, and an entry of the current or
    desired state, are records; a [spec] is a dictionary of values.  [run]
    is modelled from the point where it holds the clusters and the two
    answers of [ocm_map.cluster_specs()]; what it logs and calls is a trace,
    kept up to the exception that ends the run when there is one. *)

Module OcmClusters.

Inductive py_value : Type :=
  | PNone
  | PBool (b : bool)
  | PInt (z : Z)
  | PStr (s : string)
  | PList (items : list py_value)
  | PDict (entries : dict py_value).

(** [bool(v)]. *)
Definition truthy (v : py_value) : bool :=
  match v with
  | PNone => false
  | PBool b => b
  | PInt z => negb (z =? 0)
  | PStr s => negb (String.eqb s EmptyString)
  | PList items => negb (bool_decide (items = []))
  | PDict entries => negb (bool_decide (entries = []))
  end.

(** [a == b]: booleans compare with integers as 0 and 1, lists compare
    item by item, dictionaries compare as sets of entries. *)
Fixpoint py_eqb (a b : py_value) {struct a} : bool :=
  match a, b with
  | PNone, PNone => true
  | PBool x, PBool y => Bool.eqb x y
  | PBool x, PInt y => (if x then 1 else 0) =? y
  | PInt x, PBool y => x =? (if y then 1 else 0)
  | PInt x, PInt y => x =? y
  | PStr x, PStr y => String.eqb x y
  | PList xs, PList ys =>
      (fix items_eqb (xs ys : list py_value) : bool :=
         match xs, ys with
         | [], [] => true
         | x :: xs', y :: ys' => py_eqb x y && items_eqb xs' ys'
         | _, _ => false
         end) xs ys
  | PDict xs, PDict ys =>
      (length xs =? length ys)%nat
      && (fix entries_eqb (xs : dict py_value) : bool :=
            match xs with
            | [] => true
            | (k, x) :: xs' =>
                match dict_get ys k with
                | Some y => py_eqb x y
                | None => false
                end
                && entries_eqb xs'
            end) xs
  | _, _ => false
  end.

Inductive py_exn : Type :=
  | PyKeyError (key : string)
  | PyIndexError
  | PyValueError
  | PyTypeError
  | SystemExit (code : Z).

Inductive outcome (A : Type) : Type :=
  | Return (a : A)
  | Raised (e : py_exn).

Arguments Return {A} a.
Arguments Raised {A} e.

(** [d.pop(k, None)] and [del]: the dictionary without the key. *)
Fixpoint dict_del {V : Type} (d : dict V) (k : string) : dict V :=
  match d with
  | [] => []
  | (k', v) :: d' =>
      if String.eqb k k' then dict_del d' k else (k', v) :: dict_del d' k
  end.

(** [d.get(k)]. *)
Definition get_or_none (d : dict py_value) (k : string) : py_value :=
  match dict_get d k with
  | Some v => v
  | None => PNone
  end.

(** A cluster of app-interface, with the fields [run] reads. *)
Record cluster : Type := Cluster {
  c_name : string;
  c_path : string;
  c_ocm : py_value;
  c_spec : dict py_value;
  c_network : py_value
}.

(** [{'spec': ..., 'network': ...}]. *)
Record cluster_state : Type := ClusterState {
  st_spec : dict py_value;
  st_network : py_value
}.

(** [current_spec == desired_spec] for two such dictionaries. *)
Definition cluster_state_eqb (a b : cluster_state) : bool :=
  py_eqb (PDict [("spec", PDict (st_spec a)); ("network", st_network a)])
         (PDict [("spec", PDict (st_spec b)); ("network", st_network b)]).

Definition fetch_current_state (clusters : list cluster)
  : dict cluster_state :=
  let desired_state :=
    foldl (λ d c,
             dict_set d (c_name c)
               {| st_spec := c_spec c; st_network := c_network c |})
          [] clusters in
  (λ '(name, desired_spec),
     (name, {| st_spec := dict_del (st_spec desired_spec) "upgrade";
               st_network := st_network desired_spec |}))
    <$> desired_state.

(** What [run] logs and calls. *)
Inductive ocm_event : Type :=
  | mr_client_gateway_init
  | LogVersionUpdated (cluster_name : string) (desired current : py_value)
  | LogVersionError (cluster_name : string) (desired current : py_value)
  | LogSpecError (cluster_name : string) (desired current : cluster_state)
  | LogCreateCluster (cluster_name : string)
  | create_cluster (cluster_name : string) (desired : cluster_state)
      (dry_run : bool)
  | LogKeyUpdated (cluster_name key : string) (value : py_value)
  | submit_clusters_updates (clusters_updates : dict (dict py_value)).

(** A computation that logs and calls, and returns or raises. *)
Definition prog (A : Type) : Type := (list ocm_event * outcome A)%type.

Definition ret {A : Type} (a : A) : prog A := ([], Return a).
Definition emit (ev : ocm_event) : prog unit := ([ev], Return tt).
Definition raise {A : Type} (e : py_exn) : prog A := ([], Raised e).

Definition bind {A B : Type} (p : prog A) (k : A → prog B) : prog B :=
  match p with
  | (trace, Return a) => let '(trace', r) := k a in (trace ++ trace', r)
  | (trace, Raised e) => (trace, Raised e)
  end.

Notation "'let*' x := p 'in' k" := (bind p (λ x, k))
  (at level 10, x pattern, p at level 100, k at level 200, only parsing).

(** [d.pop(k)] and [d[k]]. *)
Definition pop (d : dict py_value) (k : string)
  : prog (py_value * dict py_value) :=
  match dict_get d k with
  | Some v => ret (v, dict_del d k)
  | None => raise (PyKeyError k)
  end.

Definition getitem (d : dict py_value) (k : string) : prog py_value :=
  match dict_get d k with
  | Some v => ret v
  | None => raise (PyKeyError k)
  end.

Fixpoint for_each {A S : Type} (body : S → A → prog S) (s : S) (l : list A)
  : prog S :=
  match l with
  | [] => ret s
  | x :: l' => let* s' := body s x in for_each body s' l'
  end.

Section Run.

(** [semver.compare], which returns -1, 0 or 1, or raises. *)
Variable semver_compare : py_value → py_value → outcome Z.

Variable dry_run : bool.
Variable clusters : list cluster.
Variable current_state : dict cluster_state.
Variable pending_state : list string.

(** The part of the loop body that fills [clusters_updates[cluster_name]]
    and compares the specs, for a cluster that OCM knows. *)
Definition update_cluster (error : bool) (cluster_name : string)
    (desired_spec current_spec : cluster_state)
  : prog (bool * dict py_value) :=
  let* cluster_path :=
    match List.filter (λ c, String.eqb (c_name c) cluster_name) clusters with
    | c :: _ => ret ("data" +:+ c_path c)
    | [] => raise PyIndexError
    end in
  let* (_, dspec) := pop (st_spec desired_spec) "initial_version" in
  let* (desired_version, dspec) := pop dspec "version" in
  let* (current_version, cspec) := pop (st_spec current_spec) "version" in
  let* compare_result :=
    if truthy desired_version
    then ([], semver_compare current_version desired_version)
    else ret 1 in
  let* (error, updates) :=
    if 0 <? compare_result then
      let* _ :=
        emit (LogVersionUpdated cluster_name desired_version
                current_version) in
      ret (error, [("version", current_version)])
    else if compare_result <? 0 then
      let* _ :=
        emit (LogVersionError cluster_name desired_version
                current_version) in
      ret (true, [])
    else ret (error, []) in
  let* updates :=
    if negb (truthy (get_or_none dspec "id"))
    then let* v := getitem cspec "id" in ret (dict_set updates "id" v)
    else ret updates in
  let* updates :=
    if negb (truthy (get_or_none dspec "external_id"))
    then let* v := getitem cspec "external_id" in
         ret (dict_set updates "external_id" v)
    else ret updates in
  let* current_provision_shard_id := getitem cspec "provision_shard_id" in
  let desired_provision_shard_id := get_or_none dspec "provision_shard_id" in
  let updates :=
    if negb (py_eqb desired_provision_shard_id current_provision_shard_id)
    then dict_set updates "provision_shard_id" current_provision_shard_id
    else updates in
  let updates :=
    match updates with
    | [] => updates
    | _ => dict_set updates "path" (PStr cluster_path)
    end in
  let excluded := ["id"; "external_id"; "provision_shard_id"] in
  let current_spec' :=
    {| st_spec := foldl dict_del cspec excluded;
       st_network := st_network current_spec |} in
  let desired_spec' :=
    {| st_spec := foldl dict_del dspec excluded;
       st_network := st_network desired_spec |} in
  if negb (cluster_state_eqb current_spec' desired_spec') then
    let* _ := emit (LogSpecError cluster_name desired_spec' current_spec') in
    ret (true, updates)
  else ret (error, updates).

(** The body of the first loop of [run]. *)
Definition cluster_step (st : bool * dict (dict py_value))
    (entry : string * cluster_state) : prog (bool * dict (dict py_value)) :=
  let '(error, clusters_updates) := st in
  let '(cluster_name, desired_spec) := entry in
  match dict_get current_state cluster_name with
  | Some current_spec =>
      let* (error, updates) :=
        update_cluster error cluster_name desired_spec current_spec in
      ret (error, dict_set clusters_updates cluster_name updates)
  | None =>
      if bool_decide (cluster_name ∈ pending_state) then ret st
      else
        let* _ := emit (LogCreateCluster cluster_name) in
        let* _ := emit (create_cluster cluster_name desired_spec dry_run) in
        ret st
  end.

(** The second loop of [run]: one log record for every key to update,
    and whether there is one. *)
Definition log_updates (clusters_updates : dict (dict py_value))
  : prog bool :=
  for_each
    (λ create_update_mr '(cluster_name, cluster_updates),
       for_each
         (λ create_update_mr '(k, v),
            if String.eqb k "path" then ret create_update_mr
            else let* _ := emit (LogKeyUpdated cluster_name k v) in ret true)
         create_update_mr cluster_updates)
    false clusters_updates.

(** [run] once [clusters] holds the clusters with an [ocm] field. *)
Definition run_clusters : prog unit :=
  let desired_state := fetch_current_state clusters in
  let* _ := if negb dry_run then emit mr_client_gateway_init else ret tt in
  let* (error, clusters_updates) :=
    for_each cluster_step (false, []) desired_state in
  let* create_update_mr := log_updates clusters_updates in
  let* _ :=
    if create_update_mr && negb dry_run
    then emit (submit_clusters_updates clusters_updates)
    else ret tt in
  if error then raise (SystemExit 1) else ret tt.

End Run.

(** [run] from the clusters that the query returns. *)
Definition run (semver_compare : py_value → py_value → outcome Z)
    (dry_run : bool) (all_clusters : list cluster)
    (current_state : dict cluster_state) (pending_state : list string)
  : prog unit :=
  run_clusters semver_compare dry_run
    (List.filter (λ c, negb (py_eqb (c_ocm c) PNone)) all_clusters)
    current_state pending_state.

End OcmClusters.

(** Records of [logging.error]. *)
Definition is_error_log (ev : OcmClusters.ocm_event) : bool :=
  match ev with
  | OcmClusters.LogVersionError _ _ _ | OcmClusters.LogSpecError _ _ _ => true
  | _ => false
  end.

(** The events [update_cluster] can produce are log records about the
    version and the spec. *)
Definition is_update_log (ev : OcmClusters.ocm_event) : Prop :=
  match ev with
  | OcmClusters.LogVersionUpdated _ _ _ | OcmClusters.LogVersionError _ _ _
  | OcmClusters.LogSpecError _ _ _ => True
  | _ => False
  end.

(** What [clusters_updates] holds for one cluster: nothing, or the path of
    the cluster file after at least one of the keys that [run] copies from
    OCM. *)
Definition well_formed_updates (updates : dict OcmClusters.py_value)
  : Prop :=
  updates = []
  ∨ (∃ path, dict_get updates "path" = Some (OcmClusters.PStr path))
    ∧ (∃ k, k ∈ dict_keys updates ∧ k ≠ "path")
    ∧ dict_keys updates
      ⊆ ["version"; "id"; "external_id"; "provision_shard_id"; "path"].

(** A property of the trace and the outcome of a computation. *)
Definition wp {A : Type} (p : OcmClusters.prog A)
    (Q : list OcmClusters.ocm_event → OcmClusters.outcome A → Prop) : Prop :=
  Q p.1 p.2.

(** Records of the second loop of [run]. *)
Definition is_key_log (ev : OcmClusters.ocm_event) : Prop :=
  match ev with
  | OcmClusters.LogKeyUpdated _ _ _ => True
  | _ => False
  end.

Definition is_submit (ev : OcmClusters.ocm_event) : bool :=
  match ev with
  | OcmClusters.submit_clusters_updates _ => true
  | _ => false
  end.

(** When [run] may make a call: the merge-request client is set up and
    used outside dry-run only; a cluster is created with the dry-run flag
    of the run, from its desired state, when OCM neither has it nor is
    installing it. *)
Definition run_event_allowed (dry_run : bool)
    (clusters : list OcmClusters.cluster)
    (current_state : dict OcmClusters.cluster_state)
    (pending_state : list string) (ev : OcmClusters.ocm_event) : Prop :=
  match ev with
  | OcmClusters.mr_client_gateway_init
  | OcmClusters.submit_clusters_updates _ => dry_run = false
  | OcmClusters.create_cluster name desired flag =>
      flag = dry_run
      ∧ dict_get current_state name = None
      ∧ (name ∉ pending_state)
      ∧ (name, desired) ∈ OcmClusters.fetch_current_state clusters
  | _ => True
  end.

(** How a run can end by an exception of the loop: a missing key, no
    cluster of the name, or what [semver.compare] raised. *)
Definition loop_exception
    (semver_compare : OcmClusters.py_value → OcmClusters.py_value
                      → OcmClusters.outcome Z)
    (e : OcmClusters.py_exn) : Prop :=
  (∃ k, e = OcmClusters.PyKeyError k) ∨ e = OcmClusters.PyIndexError
  ∨ ∃ a b, semver_compare a b = OcmClusters.Raised e.

(** What holds of the trace, the error flag and [clusters_updates] between
    two turns of the first loop of [run]. *)
Definition loop_invariant (trace : list OcmClusters.ocm_event)
    (st : bool * dict (dict OcmClusters.py_value)) : Prop :=
  st.1 = existsb is_error_log trace
  ∧ existsb is_submit trace = false
  ∧ Forall (λ entry, well_formed_updates entry.2) st.2.

(** ** Sample clusters *)

(** A stand-in for [semver.compare] on the versions of the samples. *)
Definition sample_semver_compare (a b : OcmClusters.py_value)
  : OcmClusters.outcome Z :=
  match a, b with
  | OcmClusters.PStr x, OcmClusters.PStr y =>
      OcmClusters.Return
        (match String.compare x y with Lt => -1 | Eq => 0 | Gt => 1 end)
  | _, _ => OcmClusters.Raised OcmClusters.PyTypeError
  end.

(** A cluster that OCM has upgraded and given an id. *)
Definition sample_cluster_known : OcmClusters.cluster :=
  {| OcmClusters.c_name := "c1";
     OcmClusters.c_path := "/clusters/c1.yml";
     OcmClusters.c_ocm := OcmClusters.PDict [("name", OcmClusters.PStr "ocm")];
     OcmClusters.c_spec :=
       [("id", OcmClusters.PNone);
        ("external_id", OcmClusters.PStr "e");
        ("provision_shard_id", OcmClusters.PStr "p");
        ("version", OcmClusters.PStr "4.3.0");
        ("initial_version", OcmClusters.PStr "4.2.0");
        ("upgrade", OcmClusters.PStr "stable");
        ("nodes", OcmClusters.PInt 3)];
     OcmClusters.c_network :=
       OcmClusters.PDict [("vpc", OcmClusters.PStr "10.0.0.0/16")] |}.

(** A cluster that OCM does not have yet. *)
Definition sample_cluster_new : OcmClusters.cluster :=
  {| OcmClusters.c_name := "c2";
     OcmClusters.c_path := "/clusters/c2.yml";
     OcmClusters.c_ocm := OcmClusters.PDict [("name", OcmClusters.PStr "ocm")];
     OcmClusters.c_spec :=
       [("version", OcmClusters.PStr "4.3.0");
        ("initial_version", OcmClusters.PStr "4.2.0")];
     OcmClusters.c_network := OcmClusters.PNone |}.

(** A cluster that is not managed through OCM. *)
Definition sample_cluster_without_ocm : OcmClusters.cluster :=
  {| OcmClusters.c_name := "c3";
     OcmClusters.c_path := "/clusters/c3.yml";
     OcmClusters.c_ocm := OcmClusters.PNone;
     OcmClusters.c_spec := [];
     OcmClusters.c_network := OcmClusters.PNone |}.

Definition sample_clusters : list OcmClusters.cluster :=
  [sample_cluster_known; sample_cluster_new].

Definition sample_current_state : dict OcmClusters.cluster_state :=
  [("c1",
    {| OcmClusters.st_spec :=
         [("id", OcmClusters.PStr "i1");
          ("external_id", OcmClusters.PStr "e");
          ("provision_shard_id", OcmClusters.PStr "p");
          ("version", OcmClusters.PStr "4.4.0");
          ("nodes", OcmClusters.PInt 3)];
       OcmClusters.st_network :=
         OcmClusters.PDict [("vpc", OcmClusters.PStr "10.0.0.0/16")] |})].

Definition sample_desired_known : OcmClusters.cluster_state :=
  {| OcmClusters.st_spec :=
       OcmClusters.dict_del (OcmClusters.c_spec sample_cluster_known)
         "upgrade";
     OcmClusters.st_network := OcmClusters.c_network sample_cluster_known |}.

Definition sample_current_known : OcmClusters.cluster_state :=
  {| OcmClusters.st_spec :=
       [("id", OcmClusters.PStr "i1");
        ("external_id", OcmClusters.PStr "e");
        ("provision_shard_id", OcmClusters.PStr "p");
        ("version", OcmClusters.PStr "4.4.0");
        ("nodes", OcmClusters.PInt 3)];
     OcmClusters.st_network :=
       OcmClusters.PDict [("vpc", OcmClusters.PStr "10.0.0.0/16")] |}.

Definition sample_updates_known : dict OcmClusters.py_value :=
  [("version", OcmClusters.PStr "4.4.0"); ("id", OcmClusters.PStr "i1");
   ("path", OcmClusters.PStr "data/clusters/c1.yml")].

Definition sample_desired_new : OcmClusters.cluster_state :=
  {| OcmClusters.st_spec :=
       [("version", OcmClusters.PStr "4.3.0");
        ("initial_version", OcmClusters.PStr "4.2.0")];
     OcmClusters.st_network := OcmClusters.PNone |}.

Definition sample_run_trace : list OcmClusters.ocm_event :=
  [OcmClusters.mr_client_gateway_init;
   OcmClusters.LogVersionUpdated "c1" (OcmClusters.PStr "4.3.0")
     (OcmClusters.PStr "4.4.0");
   OcmClusters.LogCreateCluster "c2";
   OcmClusters.create_cluster "c2" sample_desired_new false;
   OcmClusters.LogKeyUpdated "c1" "version" (OcmClusters.PStr "4.4.0");
   OcmClusters.LogKeyUpdated "c1" "id" (OcmClusters.PStr "i1");
   OcmClusters.submit_clusters_updates [("c1", sample_updates_known)]].




(** ** Reading an escaped character back *)

Definition hex_value (c : ascii) : option N :=
  (if Ascii.eqb c "0" then Some 0 else if Ascii.eqb c "1" then Some 1
   else if Ascii.eqb c "2" then Some 2 else if Ascii.eqb c "3" then Some 3
   else if Ascii.eqb c "4" then Some 4 else if Ascii.eqb c "5" then Some 5
   else if Ascii.eqb c "6" then Some 6 else if Ascii.eqb c "7" then Some 7
   else if Ascii.eqb c "8" then Some 8 else if Ascii.eqb c "9" then Some 9
   else if Ascii.eqb c "a" then Some 10 else if Ascii.eqb c "b" then Some 11
   else if Ascii.eqb c "c" then Some 12 else if Ascii.eqb c "d" then Some 13
   else if Ascii.eqb c "e" then Some 14 else if Ascii.eqb c "f" then Some 15
   else None)%N%char.

(** The character that a text starts with when the text continues what
    [json_escape_char] wrote, and the rest of the text; a text that starts
    with a bare double quote starts with no character. *)
Definition json_unescape_char (s : string) : option (ascii * string) :=
  match s with
  | EmptyString => None
  | String c rest =>
      if Ascii.eqb c dquote then None
      else if negb (Ascii.eqb c backslash) then Some (c, rest)
      else
        match rest with
        | EmptyString => None
        | String d rest' =>
            if Ascii.eqb d dquote || Ascii.eqb d backslash
            then Some (d, rest')
            else if Ascii.eqb d "n" then Some (nl, rest')
            else if Ascii.eqb d "r" then Some (cr, rest')
            else if Ascii.eqb d "t" then Some (tab, rest')
            else if Ascii.eqb d "b" then Some (backspace, rest')
            else if Ascii.eqb d "f" then Some (formfeed, rest')
            else
              match rest' with
              | String _ (String _ (String h (String l rest''))) =>
                  match hex_value h, hex_value l with
                  | Some x, Some y =>
                      Some (ascii_of_N (16 * x + y), rest'')
                  | _, _ => None
                  end
              | _ => None
              end
        end
  end.

(** Two merge requests that change the same two files, listed in the two
    possible orders, and the reports of their unapproved paths. *)
Definition two_owners_map : dict (list string) :=
  [("a", ["alice"]); ("b", ["bob"])].

Definition mr_a_then_b : merge_request :=
  {| changed_paths := ["a/x"; "b/y"];
     comments := [];
     labels := [];
     top_commit_created_at := 10 |}.

Definition mr_b_then_a : merge_request :=
  {| changed_paths := ["b/y"; "a/x"];
     comments := [];
     labels := [];
     top_commit_created_at := 10 |}.

Definition report_a_then_b : dict string :=
  [("a/x", report_message ["alice"]); ("b/y", report_message ["bob"])].

Definition report_b_then_a : dict string :=
  [("b/y", report_message ["bob"]); ("a/x", report_message ["alice"])].

(** The owners map that the queries are stated for: the map that
    [_get_owners_map] built, when every approvers value in it is a list of
    strings. *)
Definition typed_owners_map (raw : dict yaml_value)
  : option (dict (list string)) :=
  mapM (λ '(k, approvers), pair k <$> approvers_of_yaml approvers) raw.

Definition sample_raw_owners_map : dict yaml_value :=
  [("dir", YSeq [YStr "bob"; YStr "alice"]); ("dir/sub", YSeq [YStr "carol"])].

(** * Properties *)

(** ** Sorting and sets *)

Lemma sorted_Sorted (l : list string) : Sorted String.le (sorted l).
Proof. apply (Sorted_merge_sort String.le). Qed.

Lemma sorted_Permutation (l : list string) : sorted l ≡ₚ l.
Proof. apply merge_sort_Permutation. Qed.

Lemma elem_of_sorted (l : list string) (x : string) : x ∈ sorted l ↔ x ∈ l.
Proof. by rewrite sorted_Permutation. Qed.

Lemma sorted_perm_eq (l1 l2 : list string) : l1 ≡ₚ l2 → sorted l1 = sorted l2.
Proof.
  intros Hp. apply (Sorted_unique String.le); try apply sorted_Sorted.
  by rewrite !sorted_Permutation.
Qed.

(** ** Dictionaries *)

Lemma dict_get_Some_elem_of {V : Type} (d : dict V) (k : string) (v : V) :
  dict_get d k = Some v → (k, v) ∈ d.
Proof.
  induction d as [|[k' v'] d IH]; simpl; [done|].
  destruct (String.eqb_spec k k') as [->|Hne].
  - intros [= ->]. left.
  - intros H. right. by apply IH.
Qed.

Lemma dict_get_is_Some {V : Type} (d : dict V) (k : string) :
  k ∈ dict_keys d → is_Some (dict_get d k).
Proof.
  unfold dict_keys. induction d as [|[k' v'] d IH]; simpl.
  - by intros ?%elem_of_nil.
  - destruct (String.eqb_spec k k') as [->|Hne]; [eauto|].
    intros [?|?]%elem_of_cons; [done|]. by apply IH.
Qed.

Lemma dict_get_NoDup {V : Type} (d : dict V) (k : string) (v : V) :
  NoDup d.*1 → (k, v) ∈ d → dict_get d k = Some v.
Proof.
  induction d as [|[k' v'] d IH]; simpl.
  - by intros _ ?%elem_of_nil.
  - intros [Hk Hd]%NoDup_cons [Heq|Hin]%elem_of_cons.
    + injection Heq as -> ->. by rewrite String.eqb_refl.
    + destruct (String.eqb_spec k k') as [->|Hne]; [|by apply IH].
      destruct Hk. apply list_elem_of_fmap. by exists (k', v).
Qed.

Lemma dict_set_keys {V : Type} (d : dict V) (k : string) (v : V) (x : string) :
  x ∈ (dict_set d k v).*1 ↔ x ∈ d.*1 ∨ x = k.
Proof.
  induction d as [|[k' v'] d IH]; simpl.
  - rewrite list_elem_of_singleton, elem_of_nil. tauto.
  - destruct (String.eqb_spec k k') as [->|Hne]; simpl.
    + rewrite elem_of_cons. intuition auto.
    + rewrite !elem_of_cons, IH. tauto.
Qed.

Lemma dict_set_NoDup {V : Type} (d : dict V) (k : string) (v : V) :
  NoDup d.*1 → NoDup (dict_set d k v).*1.
Proof.
  induction d as [|[k' v'] d IH]; simpl.
  - intros _. apply NoDup_singleton.
  - intros [Hk Hd]%NoDup_cons.
    destruct (String.eqb_spec k k') as [->|Hne]; simpl.
    + by apply NoDup_cons.
    + apply NoDup_cons. split; [|by apply IH].
      rewrite dict_set_keys. intros [?|?]; [done|congruence].
Qed.

Lemma dict_set_elem_of {V : Type} (d : dict V) (k : string) (v : V)
    (x : string) (w : V) :
  (x, w) ∈ dict_set d k v → (x, w) ∈ d ∨ (x = k ∧ w = v).
Proof.
  induction d as [|[k' v'] d IH]; simpl.
  - intros [= -> ->]%list_elem_of_singleton. by right.
  - destruct (String.eqb_spec k k') as [->|Hne].
    + intros [[= -> ->]|?]%elem_of_cons; [by right|]. left. by right.
    + intros [[= -> ->]|?]%elem_of_cons; [left; by left|].
      destruct (IH H) as [?|?]; [left; by right|by right].
Qed.

(** ** Ownership queries *)

Lemma startswith_length (path k : string) :
  startswith path k = true → (String.length k ≤ String.length path)%nat.
Proof.
  unfold startswith. revert path.
  induction k as [|c k IH]; intros [|c' path]; simpl; try lia; try done.
  destruct (ascii_dec c c'); [|done]. intros H%IH. lia.
Qed.

(** Two prefixes of one path that have the same length are the same key:
    ties for the greatest length are repetitions of one key. *)
Lemma startswith_same_length (path k1 k2 : string) :
  startswith path k1 = true → startswith path k2 = true →
  String.length k1 = String.length k2 → k1 = k2.
Proof.
  unfold startswith. revert k1 k2.
  induction path as [|c path IH]; intros [|c1 k1] [|c2 k2]; simpl;
    try done.
  destruct (ascii_dec c1 c), (ascii_dec c2 c); try done. subst.
  intros H1 H2 [= Hl]. f_equal. by apply IH.
Qed.

Lemma max_by_len_spec (c : string) (cs : list string) :
  max_by_len c cs ∈ c :: cs
  ∧ ∀ x, x ∈ c :: cs →
      (String.length x ≤ String.length (max_by_len c cs))%nat.
Proof.
  unfold max_by_len. revert c.
  induction cs as [|y cs IH]; intros c; simpl.
  - split; [left|]. by intros x ->%list_elem_of_singleton.
  - destruct (Nat.ltb_spec (String.length c) (String.length y)) as [Hlt|Hge].
    + destruct (IH y) as [Hin Hmax]. split; [by right|].
      intros x [->|Hx]%elem_of_cons; [|by apply Hmax].
      specialize (Hmax y ltac:(left)). lia.
    + destruct (IH c) as [Hin Hmax]. split.
      * apply elem_of_cons in Hin as [->|?]; [left|right; by right].
      * intros x [->|[->|Hx]%elem_of_cons]%elem_of_cons.
        -- apply Hmax. left.
        -- specialize (Hmax c ltac:(left)). lia.
        -- apply Hmax. by right.
Qed.

Lemma elem_of_path_owners_from acc owners_map path (o : string) :
  o ∈ path_owners_from acc owners_map path
  ↔ o ∈ acc
    ∨ ∃ k os, (k, os) ∈ owners_map ∧ startswith path k = true ∧ o ∈ os.
Proof.
  unfold path_owners_from. revert acc.
  induction owners_map as [|[k os] m IH]; intros acc; simpl.
  - split; [by left|]. intros [?|(k & os & ?%elem_of_nil & _)]; done.
  - rewrite IH. destruct (startswith path k) eqn:Hk.
    + rewrite elem_of_union, elem_of_list_to_set. split.
      * intros [[?|?]|(k' & os' & ? & ? & ?)]; [by left| |].
        -- right. exists k, os. split; [left|done].
        -- right. exists k', os'. split; [by right|done].
      * intros [?|(k' & os' & [[= -> ->]|?]%elem_of_cons & ? & ?)].
        -- left. by left.
        -- left. by right.
        -- right. by exists k', os'.
    + split.
      * intros [?|(k' & os' & ? & ? & ?)]; [by left|].
        right. exists k', os'. split; [by right|done].
      * intros [?|(k' & os' & [[= -> ->]|?]%elem_of_cons & ? & ?)];
          [by left|congruence|].
        right. by exists k', os'.
Qed.

Lemma elem_of_owners_of_matching_keys owners_map path (o : string) :
  o ∈ owners_of_matching_keys owners_map path
  ↔ ∃ k os, (k, os) ∈ owners_map ∧ startswith path k = true ∧ o ∈ os.
Proof.
  unfold owners_of_matching_keys. rewrite elem_of_union_list. split.
  - intros (X & ([k os] & -> & Hin)%list_elem_of_fmap & Ho).
    apply list_elem_of_In, filter_In in Hin as [Hin Hk].
    exists k, os. rewrite list_elem_of_In.
    by rewrite elem_of_list_to_set in Ho.
  - intros (k & os & Hin & Hk & Ho). exists (list_to_set os).
    split; [|by rewrite elem_of_list_to_set].
    apply list_elem_of_fmap. exists (k, os). split; [done|].
    apply list_elem_of_In, filter_In. by rewrite <- list_elem_of_In.
Qed.

Lemma path_owners_from_empty owners_map path :
  path_owners_from ∅ owners_map path = owners_of_matching_keys owners_map path.
Proof.
  apply set_eq. intros o.
  rewrite elem_of_path_owners_from, elem_of_owners_of_matching_keys.
  rewrite elem_of_empty. tauto.
Qed.

Lemma candidates_spec (owners_map : dict (list string)) path (k : string) :
  k ∈ List.filter (λ owned_path, startswith path owned_path)
        (dict_keys owners_map)
  ↔ k ∈ dict_keys owners_map ∧ startswith path k = true.
Proof. by rewrite !list_elem_of_In, filter_In. Qed.

Section OwnershipQueries.

Variable set_iter : gset string → list string.
Hypothesis set_iter_enum : ∀ s, set_iter s ≡ₚ elements s.

Lemma elem_of_sorted_set_iter (s : gset string) (x : string) :
  x ∈ sorted (set_iter s) ↔ x ∈ s.
Proof. by rewrite elem_of_sorted, set_iter_enum, elem_of_elements. Qed.

Lemma NoDup_sorted_set_iter (s : gset string) : NoDup (sorted (set_iter s)).
Proof.
  rewrite sorted_Permutation, set_iter_enum. apply NoDup_elements.
Qed.

Lemma get_all_owners_Ok owners_map path l :
  get_all_owners set_iter owners_map path = Ok l →
  l = sorted (set_iter (owners_of_matching_keys owners_map path))
  ∧ owners_of_matching_keys owners_map path ≠ ∅.
Proof.
  unfold get_all_owners. rewrite path_owners_from_empty.
  case_decide; [done|]. by intros [= <-].
Qed.

Lemma get_closest_owners_Ok owners_map path l :
  get_closest_owners set_iter owners_map path = Ok l →
  ∃ elected os,
    elected ∈ dict_keys owners_map
    ∧ startswith path elected = true
    ∧ (∀ k, k ∈ dict_keys owners_map → startswith path k = true →
         (String.length k ≤ String.length elected)%nat)
    ∧ dict_get owners_map elected = Some os
    ∧ l = sorted (set_iter (list_to_set os)).
Proof.
  unfold get_closest_owners.
  destruct (List.filter _ _) as [|c cs] eqn:Hc; [done|].
  destruct (max_by_len_spec c cs) as [Hin Hmax].
  rewrite <- Hc in Hin, Hmax. apply candidates_spec in Hin as [Hk Hp].
  destruct (dict_get owners_map (max_by_len c cs)) as [os|] eqn:Hg; [|done].
  intros [= <-]. exists (max_by_len c cs), os. repeat split; try done.
  intros k Hk' Hp'. apply Hmax. by apply candidates_spec.
Qed.

Lemma get_closest_owners_matching owners_map path :
  has_matching_key owners_map path →
  ∃ l, get_closest_owners set_iter owners_map path = Ok l.
Proof.
  intros (k & Hk & Hp). unfold get_closest_owners.
  destruct (List.filter _ _) as [|c cs] eqn:Hc.
  - assert (k ∈ @nil string) as []%elem_of_nil.
    rewrite <- Hc. by apply candidates_spec.
  - destruct (max_by_len_spec c cs) as [Hin _].
    rewrite <- Hc in Hin. apply candidates_spec in Hin as [Hin _].
    apply dict_get_is_Some in Hin as [os ->]. eauto.
Qed.

Lemma no_matching_key_raises owners_map path :
  ¬ has_matching_key owners_map path →
  get_all_owners set_iter owners_map path = Raise KeyError
  ∧ get_closest_owners set_iter owners_map path = Raise KeyError.
Proof.
  intros Hno. split.
  - unfold get_all_owners. rewrite path_owners_from_empty.
    case_decide as Hne; [done|]. destruct Hne. apply set_eq. intros o.
    rewrite elem_of_owners_of_matching_keys, elem_of_empty.
    split; [|done]. intros (k & os & Hin & Hp & _). apply Hno.
    exists k. split; [|done]. apply list_elem_of_fmap. by exists (k, os).
  - unfold get_closest_owners.
    destruct (List.filter _ _) as [|c cs] eqn:Hc; [done|].
    destruct Hno. exists c. apply candidates_spec. rewrite Hc. left.
Qed.

(** C5, amended.  [allOwners] returns the union of the owner sets of
    every key that is a string prefix of the path when that union is not
    empty, as a list with exactly its members; when the union is empty it
    raises [KeyError]; and when no key is a prefix of the path,
    [allOwners] and [closestOwners] both raise [KeyError]. *)
Theorem all_owners_union_or_key_error owners_map path :
  (owners_of_matching_keys owners_map path ≠ ∅ →
     ∃ l, get_all_owners set_iter owners_map path = Ok l
          ∧ list_to_set l = owners_of_matching_keys owners_map path)
  ∧ (owners_of_matching_keys owners_map path = ∅ →
       get_all_owners set_iter owners_map path = Raise KeyError)
  ∧ (¬ has_matching_key owners_map path →
       get_all_owners set_iter owners_map path = Raise KeyError
       ∧ get_closest_owners set_iter owners_map path = Raise KeyError).
Proof.
  split; [|split].
  - intros Hne. unfold get_all_owners. rewrite path_owners_from_empty.
    case_decide; [done|]. eexists. split; [done|].
    apply set_eq. intros o.
    by rewrite elem_of_list_to_set, elem_of_sorted_set_iter.
  - intros He. unfold get_all_owners. rewrite path_owners_from_empty.
    by case_decide.
  - apply no_matching_key_raises.
Qed.

(** C6.  When some key of the index is a prefix of the path,
    [closestOwners] returns the owners of a key that is a prefix of the
    path and at least as long as every other such key. *)
Theorem closest_owners_longest_prefix owners_map path :
  has_matching_key owners_map path →
  ∃ elected os l,
    elected ∈ dict_keys owners_map
    ∧ startswith path elected = true
    ∧ (∀ k, k ∈ dict_keys owners_map → startswith path k = true →
         (String.length k ≤ String.length elected)%nat)
    ∧ dict_get owners_map elected = Some os
    ∧ get_closest_owners set_iter owners_map path = Ok l
    ∧ ∀ o, o ∈ l ↔ o ∈ os.
Proof.
  intros Hm. destruct (get_closest_owners_matching _ _ Hm) as [l Hl].
  destruct (get_closest_owners_Ok _ _ _ Hl)
    as (elected & os & Hk & Hp & Hmax & Hg & ->).
  exists elected, os. eexists. repeat split; try done.
  - by intros ?%elem_of_sorted_set_iter%elem_of_list_to_set.
  - intros ?. by apply elem_of_sorted_set_iter, elem_of_list_to_set.
Qed.

(** C10.  When [closestOwners] and [allOwners] both return, every closest
    owner is among all the owners, and both lists are sorted and free of
    duplicates. *)
Theorem closest_owners_subset_all_owners owners_map path all closest :
  get_all_owners set_iter owners_map path = Ok all →
  get_closest_owners set_iter owners_map path = Ok closest →
  closest ⊆ all
  ∧ Sorted String.le all ∧ NoDup all
  ∧ Sorted String.le closest ∧ NoDup closest.
Proof.
  intros [-> _]%get_all_owners_Ok
         (elected & os & Hk & Hp & _ & Hg & ->)%get_closest_owners_Ok.
  repeat split;
    try apply sorted_Sorted; try apply NoDup_sorted_set_iter.
  intros o Ho%elem_of_sorted_set_iter%elem_of_list_to_set.
  apply elem_of_sorted_set_iter, elem_of_owners_of_matching_keys.
  exists elected, os. split; [|done]. by apply dict_get_Some_elem_of.
Qed.

End OwnershipQueries.

(** ** Votes *)

Section Votes.

Variable mr : merge_request.

Lemma lgtms_loop_app cs1 cs2 :
  lgtms_loop mr (cs1 ++ cs2) = (lgtms_loop mr cs1 ++ lgtms_loop mr cs2)%list.
Proof.
  induction cs1 as [|c cs1 IH]; simpl; [done|].
  destruct (negb _); [done|]. destruct (_ <? _); [done|].
  simpl. by f_equal.
Qed.

Lemma elem_of_lgtms_loop cs (u : string) :
  u ∈ lgtms_loop mr cs
  ↔ ∃ c, c ∈ cs ∧ body c = "/lgtm" ∧ username c = u
         ∧ top_commit_created_at mr ≤ created_at c.
Proof.
  induction cs as [|c cs IH]; simpl.
  - rewrite elem_of_nil. split; [done|]. by intros (c & ?%elem_of_nil & _).
  - destruct (String.eqb_spec (body c) "/lgtm") as [Hb|Hb]; simpl.
    + destruct (Z.ltb_spec (created_at c) (top_commit_created_at mr)).
      * rewrite IH. split.
        -- intros (c' & ? & ?). exists c'. split; [by right|done].
        -- intros (c' & [->|?]%elem_of_cons & ? & ? & ?); [lia|].
           by exists c'.
      * rewrite elem_of_cons, IH. split.
        -- intros [->|(c' & ? & ?)].
           ++ exists c. split; [left|done].
           ++ exists c'. split; [by right|done].
        -- intros (c' & [->|?]%elem_of_cons & ? & ? & ?); [by left|].
           right. by exists c'.
    + rewrite IH. split.
      * intros (c' & ? & ?). exists c'. split; [by right|done].
      * intros (c' & [->|?]%elem_of_cons & ? & ? & ?); [done|].
        by exists c'.
Qed.

Lemma lgtms_loop_stale (c : comment) :
  created_at c < top_commit_created_at mr → lgtms_loop mr [c] = [].
Proof.
  intros Hlt. simpl. destruct (negb _); [done|].
  by destruct (Z.ltb_spec (created_at c) (top_commit_created_at mr)); [|lia].
Qed.

End Votes.

Lemma lgtms_loop_top (mr1 mr2 : merge_request) cs :
  top_commit_created_at mr1 = top_commit_created_at mr2 →
  lgtms_loop mr1 cs = lgtms_loop mr2 cs.
Proof.
  intros Htop. induction cs as [|c cs IH]; simpl; [done|].
  by rewrite Htop, IH.
Qed.

(** C4.  A vote cast strictly before the top commit is left out of the
    voters: the voters, and with them the report of unapproved paths, are
    what they would be had the vote never been posted, and every voter has
    a vote that is not older than the top commit. *)
Theorem stale_vote_never_counts (mr : merge_request)
    (before after : list comment) (vote : comment) :
  comments mr = before ++ vote :: after →
  created_at vote < top_commit_created_at mr →
  get_lgtms mr = get_lgtms (with_comments mr (before ++ after))
  ∧ (∀ change_owners_map,
       build_report (get_lgtms mr) change_owners_map
       = build_report (get_lgtms (with_comments mr (before ++ after)))
           change_owners_map)
  ∧ (∀ u, u ∈ get_lgtms mr →
       ∃ c, c ∈ comments mr ∧ c ≠ vote ∧ body c = "/lgtm"
            ∧ username c = u
            ∧ top_commit_created_at mr ≤ created_at c).
Proof.
  intros Hcs Hlt.
  assert (get_lgtms mr = get_lgtms (with_comments mr (before ++ after)))
    as Heq.
  { unfold get_lgtms. rewrite Hcs. simpl.
    rewrite (lgtms_loop_top (with_comments mr (before ++ after)) mr) by done.
    change (vote :: after) with ([vote] ++ after).
    by rewrite !lgtms_loop_app, lgtms_loop_stale. }
  split; [done|]. split; [intros; by rewrite Heq|].
  intros u (c & Hin & Hb & Hu & Hge)%elem_of_lgtms_loop.
  exists c. repeat split; try done. intros ->. lia.
Qed.

(** ** The approval report *)

Lemma change_approved_spec (lgtms : list string) (co : change_owners) :
  change_approved lgtms co = true ↔ ∃ o, o ∈ owners co ∧ o ∈ lgtms.
Proof.
  unfold change_approved.
  assert (∀ l acc,
            foldl (λ acc owner,
                     if bool_decide (owner ∈ lgtms) then true else acc) acc l
            = true
            ↔ acc = true ∨ ∃ o, o ∈ l ∧ o ∈ lgtms) as Hgen.
  { induction l as [|x l IH]; intros acc; simpl.
    - split; [by left|]. by intros [?|(o & ?%elem_of_nil & _)].
    - rewrite IH. case_bool_decide as Hx.
      + split; [|by left]. intros _. right. exists x. split; [left|done].
      + split.
        * intros [?|(o & ? & ?)]; [by left|].
          right. exists o. split; [by right|done].
        * intros [?|(o & [->|?]%elem_of_cons & ?)]; [by left|done|].
          right. by exists o. }
  rewrite Hgen. split; [by intros [?|?]|by right].
Qed.

Lemma build_report_keys (lgtms : list string)
    (change_owners_map : dict change_owners) (p : string) :
  p ∈ dict_keys (build_report lgtms change_owners_map)
  ↔ ∃ co, (p, co) ∈ change_owners_map ∧ change_approved lgtms co = false.
Proof.
  unfold build_report, dict_keys.
  assert (∀ com rep,
            p ∈ (foldl (λ rep '(change_path, co),
                          if change_approved lgtms co then rep
                          else dict_set rep change_path
                                 (report_message (closest_owners co)))
                       rep com).*1
            ↔ p ∈ rep.*1
              ∨ ∃ co, (p, co) ∈ com ∧ change_approved lgtms co = false)
    as Hgen.
  { induction com as [|[q co] com IH]; intros rep; simpl.
    - split; [by left|]. by intros [?|(co & ?%elem_of_nil & _)].
    - rewrite IH. destruct (change_approved lgtms co) eqn:Hco.
      + split.
        * intros [?|(co' & ? & ?)]; [by left|].
          right. exists co'. split; [by right|done].
        * intros [?|(co' & [[= -> ->]|?]%elem_of_cons & ?)];
            [by left|congruence|].
          right. by exists co'.
      + rewrite dict_set_keys. split.
        * intros [[?| ->]|(co' & ? & ?)]; [by left| |].
          -- right. exists co. split; [left|done].
          -- right. exists co'. split; [by right|done].
        * intros [?|(co' & [[= -> ->]|?]%elem_of_cons & ?)].
          -- left. by left.
          -- left. by right.
          -- right. by exists co'. }
  rewrite Hgen, elem_of_nil. split; [by intros [?|?]|by right].
Qed.

Section Resolution.

Variable set_iter : gset string → list string.
Variable owners_map : dict (list string).

Lemma get_all_owners_raises path e :
  get_all_owners set_iter owners_map path = Raise e → e = KeyError.
Proof. unfold get_all_owners. case_decide; [|done]. by intros [= <-]. Qed.

Lemma get_closest_owners_raises path e :
  get_closest_owners set_iter owners_map path = Raise e → e = KeyError.
Proof.
  unfold get_closest_owners. destruct (List.filter _ _); [by intros [= <-]|].
  destruct (dict_get _ _); [done|]. by intros [= <-].
Qed.

Lemma not_resolves path :
  ¬ resolves set_iter owners_map path →
  get_all_owners set_iter owners_map path = Raise KeyError
  ∨ get_closest_owners set_iter owners_map path = Raise KeyError.
Proof.
  intros Hn. destruct (get_all_owners _ _ path) as [all|e] eqn:Ha.
  - destruct (get_closest_owners _ _ path) as [closest|e] eqn:Hc.
    + destruct Hn. by exists all, closest.
    + right. by rewrite (get_closest_owners_raises _ _ Hc).
  - left. by rewrite (get_all_owners_raises _ _ Ha).
Qed.

Lemma change_owners_loop_Ok paths acc com :
  change_owners_loop set_iter owners_map acc paths = Ok com →
  (NoDup acc.*1 → NoDup com.*1)
  ∧ (Forall (resolved_entry set_iter owners_map) acc → Forall (resolved_entry set_iter owners_map) com)
  ∧ (∀ p, p ∈ com.*1 ↔ p ∈ acc.*1 ∨ p ∈ paths).
Proof.
  revert acc. induction paths as [|path paths IH]; intros acc; simpl.
  - intros [= <-]. repeat split; try done.
    + by left.
    + by intros [?|?%elem_of_nil].
  - destruct (get_all_owners _ _ path) as [all|[]] eqn:Ha; try done.
    destruct (get_closest_owners _ _ path) as [closest|[]] eqn:Hc; try done.
    intros (Hnd & Hres & Hkeys)%IH. split; [|split].
    + intros ?. by apply Hnd, dict_set_NoDup.
    + intros Hacc. apply Hres. apply Forall_forall.
      intros [q co] [Hin|[-> ->]]%dict_set_elem_of.
      * by eapply Forall_forall in Hacc.
      * by split.
    + intros p. rewrite Hkeys, dict_set_keys, elem_of_cons. tauto.
Qed.

Lemma change_owners_loop_raises paths acc e :
  change_owners_loop set_iter owners_map acc paths = Raise e →
  e = OwnerNotFoundError.
Proof.
  revert acc. induction paths as [|path paths IH]; intros acc; simpl; [done|].
  destruct (get_all_owners _ _ path) as [all|e'] eqn:Ha.
  - destruct (get_closest_owners _ _ path) as [closest|e'] eqn:Hc.
    + apply IH.
    + rewrite (get_closest_owners_raises _ _ Hc). by intros [= <-].
  - rewrite (get_all_owners_raises _ _ Ha). by intros [= <-].
Qed.

Lemma change_owners_loop_unresolved paths acc path :
  path ∈ paths → ¬ resolves set_iter owners_map path →
  change_owners_loop set_iter owners_map acc paths = Raise OwnerNotFoundError.
Proof.
  intros Hin Hn. revert acc.
  induction paths as [|q paths IH]; intros acc; simpl.
  - by apply elem_of_nil in Hin.
  - destruct (get_all_owners _ _ q) as [all|e'] eqn:Ha.
    + destruct (get_closest_owners _ _ q) as [closest|e'] eqn:Hc.
      * apply elem_of_cons in Hin as [->|Hin]; [|by apply IH].
        destruct Hn. by exists all, closest.
      * by rewrite (get_closest_owners_raises _ _ Hc).
    + by rewrite (get_all_owners_raises _ _ Ha).
Qed.

End Resolution.

(** ** The verdict and the side effects *)

Section Evaluation.

Variable set_iter : gset string → list string.
Variable json_loads : string → result json_value.
Variable bot_username : string.
Variable owners_map : dict (list string).
Variable mr : merge_request.

Local Abbreviation rap := (report_already_posted json_loads bot_username mr).
Local Abbreviation status :=
  (get_approval_status set_iter json_loads bot_username owners_map mr).
Local Abbreviation run_mr :=
  (run_merge_request set_iter json_loads bot_username owners_map mr).


Lemma report_already_posted_returns rep cs :
  only_decode_errors json_loads → ∃ b, rap rep cs = Ok b.
Proof.
  intros Hlib. induction cs as [|c cs IH]; cbn [report_already_posted];
    [eauto|].
  destruct (negb _); [done|]. destruct (_ <? _); [done|].
  destruct (json_loads _) as [decoded|e] eqn:Hl.
  - destruct (json_eq_report decoded rep); eauto.
  - by rewrite (Hlib _ _ Hl).
Qed.

Lemma report_already_posted_found rep cs c decoded :
  only_decode_errors json_loads →
  c ∈ cs → qualifying bot_username mr c →
  json_loads (json_body_of c) = Ok decoded →
  json_eq_report decoded rep = true →
  rap rep cs = Ok true.
Proof.
  intros Hlib Hin [Hu Ht] Hl Heq.
  unfold json_body_of in Hl.
  induction cs as [|c' cs IH]; cbn [report_already_posted];
    [by apply elem_of_nil in Hin|].
  apply elem_of_cons in Hin as [<-|Hin].
  - rewrite Hu, String.eqb_refl. cbn [negb].
    destruct (Z.ltb_spec (created_at c) (top_commit_created_at mr)); [lia|].
    by rewrite Hl, Heq.
  - destruct (negb _); [by apply IH|]. destruct (_ <? _); [by apply IH|].
    destruct (json_loads (rstrip _ (lstrip _ (body c')))) as [d|e] eqn:Hl'.
    + destruct (json_eq_report d rep); [done|by apply IH].
    + rewrite (Hlib _ _ Hl'). by apply IH.
Qed.

Lemma get_approval_status_returns :
  only_decode_errors json_loads → ∃ st, status = Ok st.
Proof.
  intros Hlib. unfold get_approval_status, get_change_owners_map.
  destruct (change_owners_loop _ _ _ _) as [com|e] eqn:Hcom.
  - destruct (build_report _ _) as [|entry rep]; [eauto|].
    destruct (report_already_posted_returns (entry :: rep) (comments mr) Hlib)
      as [[] Hb]; rewrite Hb; eauto.
  - rewrite (change_owners_loop_raises _ _ _ _ _ Hcom). eauto.
Qed.

(** C7.  Once every changed path resolves, a changed path stays out of the
    report exactly when one of its owners has posted a [/lgtm] note that is
    not older than the top commit, and the status is the approved one
    exactly when the report is empty. *)
Theorem approved_iff_owner_voted change_owners_map :
  get_change_owners_map set_iter owners_map mr = Ok change_owners_map →
  (∀ path, path ∈ changed_paths mr →
     ∃ all,
       get_all_owners set_iter owners_map path = Ok all
       ∧ (path ∉ dict_keys (build_report (get_lgtms mr) change_owners_map)
          ↔ ∃ o c, o ∈ all ∧ c ∈ comments mr ∧ body c = "/lgtm"
                   ∧ username c = o
                   ∧ top_commit_created_at mr ≤ created_at c))
  ∧ (status = Ok {| approved := true; report := None |}
     ↔ build_report (get_lgtms mr) change_owners_map = [])
  ∧ ∀ st, status = Ok st →
          (approved st = true
           ↔ build_report (get_lgtms mr) change_owners_map = []).
Proof.
  intros Hcom. split; [|split].
  - intros path Hin. unfold get_change_owners_map in Hcom.
    apply change_owners_loop_Ok in Hcom as (Hnd & Hres & Hkeys).
    specialize (Hnd (NoDup_nil_2)). specialize (Hres (Forall_nil_2 _)).
    assert (path ∈ change_owners_map.*1) as Hkey by (apply Hkeys; by right).
    apply list_elem_of_fmap in Hkey as ([q co] & -> & Hentry).
    pose proof (proj1 (Forall_forall _ _) Hres _ Hentry) as [Hall _].
    exists (owners co). split; [done|].
    assert ((∃ o c, o ∈ owners co ∧ c ∈ comments mr ∧ body c = "/lgtm"
                    ∧ username c = o
                    ∧ top_commit_created_at mr ≤ created_at c)
            ↔ change_approved (get_lgtms mr) co = true) as ->.
    { rewrite change_approved_spec. unfold get_lgtms. split.
      - intros (o & c & Ho & Hc & Hb & Hu & Ht). exists o. split; [done|].
        apply elem_of_lgtms_loop. by exists c.
      - intros (o & Ho & (c & Hc & Hb & Hu & Ht)%elem_of_lgtms_loop).
        by exists o, c. }
    rewrite build_report_keys. simpl. split.
    + intros Hno. destruct (change_approved _ co) eqn:Hco; [done|].
      destruct Hno. by exists co.
    + intros Hco (co' & Hentry' & Hco').
      assert (co' = co) as ->; [|congruence].
      apply (dict_get_NoDup _ _ _ Hnd) in Hentry, Hentry'. congruence.
  - unfold get_approval_status. rewrite Hcom.
    destruct (build_report _ _) as [|entry rep]; [done|].
    split; [|done].
    destruct (report_already_posted _ _ _ _ _) as [[]|]; done.
  - intros st. unfold get_approval_status. rewrite Hcom.
    destruct (build_report _ _) as [|entry rep]; [by intros [= <-]|].
    destruct (report_already_posted _ _ _ _ _) as [[]|]; [| |done];
      by intros [= <-].
Qed.

(** C1, amended.  When a changed path does not resolve, the status is the
    not-approved one without a report, no comment is created and the label
    is never added; outside dry-run the approval label is removed when it
    is present. *)
Theorem unresolved_path_not_approved (path : string) (dry_run : bool) :
  path ∈ changed_paths mr →
  ¬ resolves set_iter owners_map path →
  status = Ok {| approved := false; report := None |}
  ∧ ∃ trace,
      run_mr dry_run = Ok trace
      ∧ directives trace
        = if negb dry_run && has_approval_label mr
          then [remove_label_from_merge_request APPROVAL_LABEL]
          else [].
Proof.
  intros Hin Hn.
  assert (status = Ok {| approved := false; report := None |}) as Hst.
  { unfold get_approval_status, get_change_owners_map.
    by rewrite (change_owners_loop_unresolved _ _ _ _ path Hin Hn). }
  split; [done|]. unfold run_merge_request.
  rewrite Hst. simpl. eexists. split; [done|].
  by destruct dry_run, (has_approval_label mr).
Qed.





End Evaluation.

(** C9.  The evaluation does not depend on the order in which the sets of
    owners are iterated: two runs on the same index, changed paths, notes,
    labels and top-commit time give the same status and the same calls. *)
Theorem evaluation_deterministic (set_iter1 set_iter2 : gset string → list string)
    (json_loads : string → result json_value) (bot_username : string)
    (owners_map : dict (list string)) (mr : merge_request) (dry_run : bool) :
  (∀ s, set_iter1 s ≡ₚ elements s) →
  (∀ s, set_iter2 s ≡ₚ elements s) →
  get_approval_status set_iter1 json_loads bot_username owners_map mr
  = get_approval_status set_iter2 json_loads bot_username owners_map mr
  ∧ run_merge_request set_iter1 json_loads bot_username owners_map mr dry_run
    = run_merge_request set_iter2 json_loads bot_username owners_map mr
        dry_run.
Proof.
  intros H1 H2.
  assert (∀ s, sorted (set_iter1 s) = sorted (set_iter2 s)) as Hs.
  { intros s. apply sorted_perm_eq. by rewrite H1, H2. }
  assert (∀ path, get_all_owners set_iter1 owners_map path
                  = get_all_owners set_iter2 owners_map path) as Hall.
  { intros path. unfold get_all_owners. by rewrite Hs. }
  assert (∀ path, get_closest_owners set_iter1 owners_map path
                  = get_closest_owners set_iter2 owners_map path) as Hclosest.
  { intros path. unfold get_closest_owners.
    destruct (List.filter _ _); [done|].
    destruct (dict_get _ _); [|done]. by rewrite Hs. }
  assert (∀ paths acc, change_owners_loop set_iter1 owners_map acc paths
                       = change_owners_loop set_iter2 owners_map acc paths)
    as Hloop.
  { induction paths as [|path paths IH]; intros acc; simpl; [done|].
    rewrite Hall, Hclosest.
    destruct (get_all_owners _ _ _); [|done].
    destruct (get_closest_owners _ _ _); [|done]. apply IH. }
  assert (get_approval_status set_iter1 json_loads bot_username owners_map mr
          = get_approval_status set_iter2 json_loads bot_username owners_map
              mr) as Hst.
  { unfold get_approval_status, get_change_owners_map. by rewrite Hloop. }
  split; [done|]. unfold run_merge_request. by rewrite Hst.
Qed.

(** ** Serialization of the report *)

Lemma same_entries_same_keys_eq (r1 r2 : dict string) :
  NoDup (dict_keys r1) → NoDup (dict_keys r2) →
  (∀ entry, entry ∈ r1 ↔ entry ∈ r2) →
  dict_keys r1 = dict_keys r2 → r1 = r2.
Proof.
  unfold dict_keys. revert r2.
  induction r1 as [|[k v] r1 IH]; intros [|[k' v'] r2]; simpl; try done.
  intros [Hk1 Hnd1]%NoDup_cons [Hk2 Hnd2]%NoDup_cons Hsame [= <- Hkeys].
  assert (v = v') as <-.
  { assert ((k, v) ∈ (k, v') :: r2) as [[= ->]|Hin]%elem_of_cons; [|done|].
    - apply Hsame. left.
    - destruct Hk2. apply list_elem_of_fmap. by exists (k, v). }
  f_equal. apply IH; try done.
  intros [q w]. split; intros Hin.
  - assert ((q, w) ∈ (k, v) :: r2) as [[= -> ->]|?]%elem_of_cons; [|exfalso|done].
    + apply Hsame. by right.
    + apply Hk1, list_elem_of_fmap. by exists (k, v).
  - assert ((q, w) ∈ (k, v) :: r1) as [[= -> ->]|?]%elem_of_cons; [|exfalso|done].
    + apply Hsame. by right.
    + apply Hk2, list_elem_of_fmap. by exists (k, v).
Qed.

(** ** Building the index *)

Section IndexBuild.

Variable repository_blob_content : string → string.
Variable b64decode_decode : string → result string.
Variable safe_load : string → result yaml_value.
Variable path_parent : string → string.

Local Abbreviation step :=
  (owners_map_step repository_blob_content b64decode_decode safe_load
     path_parent).
Local Abbreviation loop :=
  (owners_map_loop repository_blob_content b64decode_decode safe_load
     path_parent).

Lemma owners_map_loop_app st tree1 tree2 :
  loop st (tree1 ++ tree2)
  = match loop st tree1 with
    | Ok st' => loop st' tree2
    | Raise e => Raise e
    end.
Proof.
  revert st. induction tree1 as [|item tree1 IH]; intros st; simpl; [done|].
  destruct (step st item); [apply IH|done].
Qed.

(** The case the [except KeyError] clause covers: a mapping without an
    [approvers] key is logged and left out. *)
Lemma declaration_without_approvers_skipped owners_map log item content :
  item_name item = "OWNERS" → item_type item = "blob" →
  b64decode_decode (repository_blob_content (item_id item)) = Ok content →
  load_approvers safe_load content = Raise KeyError →
  step (owners_map, log) item
  = Ok (owners_map, log ++ [LogNotAbleToLoad (item_path item)]).
Proof.
  intros Hn Ht Hc Hl. unfold owners_map_step.
  by rewrite Hn, Ht, Hc, Hl.
Qed.

(** C3 fails on the code.  A declaration whose content does not yield an
    approvers list for another reason than a missing key (a document that
    is not a mapping, a document that is not YAML) is not skipped: its
    exception leaves [_get_owners_map] and no index is built. *)
Theorem unreadable_declaration_aborts_index_build
    before item after st content e :
  loop ([], []) before = Ok st →
  item_name item = "OWNERS" → item_type item = "blob" →
  b64decode_decode (repository_blob_content (item_id item)) = Ok content →
  load_approvers safe_load content = Raise e → e ≠ KeyError →
  _get_owners_map repository_blob_content b64decode_decode safe_load
    path_parent (before ++ item :: after)
  = Raise e.
Proof.
  intros Hb Hn Ht Hc Hl He. unfold _get_owners_map.
  rewrite owners_map_loop_app, Hb. simpl. unfold owners_map_step.
  destruct st as [owners_map log]. rewrite Hn, Ht, Hc, Hl. simpl.
  by destruct e.
Qed.

End IndexBuild.

(** ** The properties on the sample data *)

Lemma elements_enum (s : gset string) : elements s ≡ₚ elements s.
Proof. reflexivity. Defined.

Lemma sample_json_loads_only_decode_errors :
  only_decode_errors sample_json_loads.
Proof.
  intros s e. unfold sample_json_loads.
  destruct (String.eqb s (json_dumps sample_report)); [discriminate|].
  intros H. injection H as <-. reflexivity.
Defined.

Lemma all_owners_union_or_key_error_witness :
  (owners_of_matching_keys sample_owners_map "dir/sub/x" ≠ ∅ →
     ∃ l, get_all_owners elements sample_owners_map "dir/sub/x" = Ok l
          ∧ list_to_set l
            = owners_of_matching_keys sample_owners_map "dir/sub/x")
  ∧ (owners_of_matching_keys sample_owners_map "dir/sub/x" = ∅ →
       get_all_owners elements sample_owners_map "dir/sub/x" = Raise KeyError)
  ∧ (¬ has_matching_key sample_owners_map "dir/sub/x" →
       get_all_owners elements sample_owners_map "dir/sub/x" = Raise KeyError
       ∧ get_closest_owners elements sample_owners_map "dir/sub/x"
         = Raise KeyError).
Proof.
  exact (all_owners_union_or_key_error elements elements_enum
           sample_owners_map "dir/sub/x").
Defined.

(** C5 as stated fails: a key whose approvers list is empty is a prefix of
    the path, and [allOwners] raises instead of returning the union, while
    [closestOwners] returns. *)
Lemma empty_approvers_key_error :
  has_matching_key [("dir", [])] "dir/f"
  ∧ get_all_owners elements [("dir", [])] "dir/f" = Raise KeyError
  ∧ get_closest_owners elements [("dir", [])] "dir/f" = Ok [].
Proof.
  split; [|split]; [|reflexivity|reflexivity].
  exists "dir". split; [|reflexivity]. apply list_elem_of_singleton.
  reflexivity.
Qed.

Lemma sample_has_matching_key : has_matching_key sample_owners_map "dir/sub/x".
Proof. exists "dir". split; [left|reflexivity]. Defined.

Lemma closest_owners_longest_prefix_witness :
  ∃ elected os l,
    elected ∈ dict_keys sample_owners_map
    ∧ startswith "dir/sub/x" elected = true
    ∧ (∀ k, k ∈ dict_keys sample_owners_map →
         startswith "dir/sub/x" k = true →
         (String.length k ≤ String.length elected)%nat)
    ∧ dict_get sample_owners_map elected = Some os
    ∧ get_closest_owners elements sample_owners_map "dir/sub/x" = Ok l
    ∧ ∀ o, o ∈ l ↔ o ∈ os.
Proof.
  exact (closest_owners_longest_prefix elements elements_enum
           sample_owners_map "dir/sub/x" sample_has_matching_key).
Defined.

Lemma closest_owners_subset_all_owners_witness :
  ["carol"] ⊆ ["alice"; "bob"; "carol"]
  ∧ Sorted String.le ["alice"; "bob"; "carol"]
  ∧ NoDup ["alice"; "bob"; "carol"]
  ∧ Sorted String.le ["carol"] ∧ NoDup ["carol"].
Proof.
  apply (closest_owners_subset_all_owners elements elements_enum
           sample_owners_map "dir/sub/x"); reflexivity.
Defined.

Lemma stale_vote_never_counts_witness :
  get_lgtms mr_stale_vote = get_lgtms (with_comments mr_stale_vote ([] ++ []))
  ∧ (∀ change_owners_map,
       build_report (get_lgtms mr_stale_vote) change_owners_map
       = build_report (get_lgtms (with_comments mr_stale_vote ([] ++ [])))
           change_owners_map)
  ∧ (∀ u, u ∈ get_lgtms mr_stale_vote →
       ∃ c, c ∈ comments mr_stale_vote ∧ c ≠ Comment "alice" "/lgtm" 5
            ∧ body c = "/lgtm" ∧ username c = u
            ∧ top_commit_created_at mr_stale_vote ≤ created_at c).
Proof.
  apply (stale_vote_never_counts mr_stale_vote [] [] (Comment "alice" "/lgtm" 5));
    [reflexivity|simpl; lia].
Defined.

Lemma approved_iff_owner_voted_witness :
  (∀ path, path ∈ changed_paths mr_voted →
     ∃ all,
       get_all_owners elements sample_owners_map path = Ok all
       ∧ (path ∉ dict_keys
            (build_report (get_lgtms mr_voted)
               [("dir/file.txt", ChangeOwners ["alice"; "bob"] ["alice"; "bob"])])
          ↔ ∃ o c, o ∈ all ∧ c ∈ comments mr_voted ∧ body c = "/lgtm"
                   ∧ username c = o
                   ∧ top_commit_created_at mr_voted ≤ created_at c))
  ∧ (get_approval_status elements sample_json_loads "bot" sample_owners_map
       mr_voted
     = Ok {| approved := true; report := None |}
     ↔ build_report (get_lgtms mr_voted)
         [("dir/file.txt", ChangeOwners ["alice"; "bob"] ["alice"; "bob"])]
       = [])
  ∧ ∀ st, get_approval_status elements sample_json_loads "bot"
            sample_owners_map mr_voted = Ok st →
          (approved st = true
           ↔ build_report (get_lgtms mr_voted)
               [("dir/file.txt",
                 ChangeOwners ["alice"; "bob"] ["alice"; "bob"])] = []).
Proof.
  apply (approved_iff_owner_voted elements sample_json_loads "bot"
           sample_owners_map mr_voted).
  reflexivity.
Defined.

(** C1 as stated fails: a changed path without an owner gives the status of
    a merge request whose report was already posted, and the approval label
    that was present is removed. *)
Lemma unowned_path_removes_label :
  "other/x" ∈ changed_paths mr_unowned
  ∧ get_all_owners elements sample_owners_map "other/x" = Raise KeyError
  ∧ get_approval_status elements sample_json_loads "bot" sample_owners_map
      mr_unowned
    = get_approval_status elements sample_json_loads "bot" sample_owners_map
        mr_reported
  ∧ run_merge_request elements sample_json_loads "bot" sample_owners_map
      mr_unowned false
    = Ok [Log LogRemovingApproval;
          remove_label_from_merge_request "approved";
          Log LogNotFullyApproved].
Proof.
  split; [|split; [|split]]; [|reflexivity|vm_compute; reflexivity
                              |vm_compute; reflexivity].
  right. left.
Qed.

Lemma sample_unresolved : ¬ resolves elements sample_owners_map "other/x".
Proof. intros (all & closest & Hall & _). discriminate Hall. Defined.

Lemma unresolved_path_not_approved_witness :
  get_approval_status elements sample_json_loads "bot" sample_owners_map
    mr_unowned
  = Ok {| approved := false; report := None |}
  ∧ ∃ trace,
      run_merge_request elements sample_json_loads "bot" sample_owners_map
        mr_unowned false = Ok trace
      ∧ directives trace
        = if negb false && has_approval_label mr_unowned
          then [remove_label_from_merge_request APPROVAL_LABEL]
          else [].
Proof.
  apply (unresolved_path_not_approved elements sample_json_loads "bot"
           sample_owners_map mr_unowned "other/x" false);
    [right; left|exact sample_unresolved].
Defined.





Lemma reverse_elements_enum (s : gset string) :
  reverse (elements s) ≡ₚ elements s.
Proof. apply reverse_Permutation. Defined.

Lemma evaluation_deterministic_witness :
  get_approval_status elements sample_json_loads "bot" sample_owners_map
    mr_unvoted
  = get_approval_status (λ s, reverse (elements s)) sample_json_loads "bot"
      sample_owners_map mr_unvoted
  ∧ run_merge_request elements sample_json_loads "bot" sample_owners_map
      mr_unvoted false
    = run_merge_request (λ s, reverse (elements s)) sample_json_loads "bot"
        sample_owners_map mr_unvoted false.
Proof.
  exact (evaluation_deterministic elements (λ s, reverse (elements s))
           sample_json_loads "bot" sample_owners_map mr_unvoted false
           elements_enum reverse_elements_enum).
Defined.

Lemma unreadable_declaration_aborts_index_build_witness :
  _get_owners_map empty_blob sample_b64decode_decode sample_safe_load
    sample_path_parent ([] ++ empty_declaration_tree)
  = Raise TypeError.
Proof.
  apply (unreadable_declaration_aborts_index_build empty_blob
           sample_b64decode_decode sample_safe_load sample_path_parent
           [] _ [] ([], []) EmptyString TypeError);
    try reflexivity.
  discriminate.
Defined.

(** ** The scenarios of the specification *)

(** An owner voted after the top commit: the label is added. *)
Example scenario_owner_voted :
  run_merge_request elements sample_json_loads "bot" sample_owners_map
    mr_voted false
  = Ok [Log LogApprovingNow; add_label_to_merge_request "approved"].
Proof. vm_compute. reflexivity. Qed.

(** Nobody voted: the label is removed and the report is posted. *)
Example scenario_nobody_voted :
  directives
    (match run_merge_request elements sample_json_loads "bot"
             sample_owners_map mr_unvoted false with
     | Ok trace => trace
     | Raise _ => []
     end)
  = [remove_label_from_merge_request "approved";
     notes_create
       (fence_open
        +:+ json_dumps
              [("dir/file.txt", report_message ["alice"; "bob"])]
        +:+ fence_close)].
Proof. vm_compute. reflexivity. Qed.

(** A vote older than the top commit changes nothing. *)
Example scenario_stale_vote :
  run_merge_request elements sample_json_loads "bot" sample_owners_map
    mr_stale_vote false
  = run_merge_request elements sample_json_loads "bot" sample_owners_map
      mr_unvoted false.
Proof. vm_compute. reflexivity. Qed.

(** The report is already posted: the label goes, no note is created. *)
Example scenario_report_posted :
  run_merge_request elements sample_json_loads "bot" sample_owners_map
    mr_reported false
  = Ok [Log LogRemovingApproval;
        remove_label_from_merge_request "approved";
        Log LogNotFullyApproved].
Proof. vm_compute. reflexivity. Qed.

(** * Further properties of the code *)

(** ** Ownership by textual prefix *)

Lemma startswith_app (k suffix : string) : startswith (k +:+ suffix) k = true.
Proof.
  unfold startswith. induction k as [|c k IH]; simpl.
  - by destruct suffix.
  - by destruct (ascii_dec c c).
Qed.

Section PrefixOwnership.

Variable set_iter : gset string → list string.
Hypothesis set_iter_enum : ∀ s, set_iter s ≡ₚ elements s.

(** X1.  The owners declared for a key own every path that extends the key as a
    text, whether or not the extension starts a new path segment. *)
Theorem owner_of_key_owns_every_extension
    (owners_map : dict (list string)) (k : string) (os : list string)
    (o suffix : string) :
  (k, os) ∈ owners_map → o ∈ os →
  ∃ all, get_all_owners set_iter owners_map (k +:+ suffix) = Ok all
         ∧ o ∈ all.
Proof.
  intros Hk Ho.
  assert (o ∈ owners_of_matching_keys owners_map (k +:+ suffix)) as Hin.
  { apply elem_of_owners_of_matching_keys. exists k, os.
    by rewrite startswith_app. }
  unfold get_all_owners. rewrite path_owners_from_empty.
  case_decide as He; [by rewrite He, elem_of_empty in Hin|].
  eexists. split; [done|]. by apply elem_of_sorted_set_iter.
Qed.

(** X2.  Ownership resolution succeeds for a path exactly when some key that is
    a prefix of the path declares at least one owner. *)
Theorem resolves_iff_some_owner (owners_map : dict (list string))
    (path : string) :
  resolves set_iter owners_map path
  ↔ ∃ k os o, (k, os) ∈ owners_map ∧ startswith path k = true ∧ o ∈ os.
Proof.
  split.
  - intros (all & closest & [_ Hne]%get_all_owners_Ok & _).
    apply set_choose_L in Hne as [o Ho].
    apply elem_of_owners_of_matching_keys in Ho as (k & os & ?).
    by exists k, os, o.
  - intros (k & os & o & Hk & Hp & Ho).
    assert (has_matching_key owners_map path) as Hm.
    { exists k. split; [|done]. apply list_elem_of_fmap. by exists (k, os). }
    destruct (get_closest_owners_matching set_iter _ _ Hm) as [closest Hc].
    assert (o ∈ owners_of_matching_keys owners_map path) as Hin.
    { apply elem_of_owners_of_matching_keys. by exists k, os. }
    eexists _, closest. split; [|done].
    unfold get_all_owners. rewrite path_owners_from_empty.
    case_decide as He; [by rewrite He, elem_of_empty in Hin|done].
Qed.

End PrefixOwnership.

Lemma owner_of_key_owns_every_extension_witness :
  ∃ all, get_all_owners elements [("data/a", ["alice"])]
           ("data/a" +:+ "b/x") = Ok all
         ∧ "alice" ∈ all.
Proof.
  apply (owner_of_key_owns_every_extension elements elements_enum
           [("data/a", ["alice"])] "data/a" ["alice"] "alice" "b/x");
    left.
Defined.

(** ** Votes and the report *)

(** X3.  Every [/lgtm] note that is not older than the top commit counts as a
    vote of its author, a note created at the very time of the top commit
    included. *)
Theorem vote_not_older_than_top_commit_counts (mr : merge_request)
    (c : comment) :
  c ∈ comments mr → body c = "/lgtm" →
  top_commit_created_at mr ≤ created_at c →
  username c ∈ get_lgtms mr.
Proof.
  intros Hin Hb Ht. apply elem_of_lgtms_loop. by exists c.
Qed.

Lemma vote_not_older_than_top_commit_counts_witness :
  "alice" ∈ get_lgtms
              {| changed_paths := []; comments := [Comment "alice" "/lgtm" 10];
                 labels := []; top_commit_created_at := 10 |}.
Proof.
  apply (vote_not_older_than_top_commit_counts
           {| changed_paths := []; comments := [Comment "alice" "/lgtm" 10];
              labels := []; top_commit_created_at := 10 |}
           (Comment "alice" "/lgtm" 10));
    [left|reflexivity|simpl; lia].
Defined.

(** X4.  More voters never add a path to the report. *)
Theorem more_voters_fewer_unapproved_paths (lgtms lgtms' : list string)
    (change_owners_map : dict change_owners) (path : string) :
  lgtms ⊆ lgtms' →
  path ∈ dict_keys (build_report lgtms' change_owners_map) →
  path ∈ dict_keys (build_report lgtms change_owners_map).
Proof.
  intros Hsub. rewrite !build_report_keys. intros (co & Hin & Hco).
  exists co. split; [done|].
  destruct (change_approved lgtms co) eqn:Hco'; [|done].
  apply change_approved_spec in Hco' as (o & Ho & Hl).
  assert (change_approved lgtms' co = true) as Ht; [|congruence].
  apply change_approved_spec. exists o. split; [done|]. by apply Hsub.
Qed.

Lemma more_voters_fewer_unapproved_paths_witness :
  "dir/file.txt"
  ∈ dict_keys
      (build_report []
         [("dir/file.txt", ChangeOwners ["alice"] ["alice"])]).
Proof.
  apply (more_voters_fewer_unapproved_paths [] ["bob"]
           [("dir/file.txt", ChangeOwners ["alice"] ["alice"])]
           "dir/file.txt").
  - intros u Hu. by apply elem_of_nil in Hu.
  - left.
Defined.

Lemma build_report_entries (lgtms : list string)
    (change_owners_map : dict change_owners) (p msg : string) :
  (p, msg) ∈ build_report lgtms change_owners_map →
  ∃ co, (p, co) ∈ change_owners_map
        ∧ change_approved lgtms co = false
        ∧ msg = report_message (closest_owners co).
Proof.
  unfold build_report.
  assert (∀ com rep,
            (p, msg)
            ∈ foldl (λ rep '(change_path, co),
                       if change_approved lgtms co then rep
                       else dict_set rep change_path
                              (report_message (closest_owners co)))
                rep com →
            (p, msg) ∈ rep
            ∨ ∃ co, (p, co) ∈ com
                    ∧ change_approved lgtms co = false
                    ∧ msg = report_message (closest_owners co)) as Hgen.
  { induction com as [|[q co] com IH]; intros rep; simpl; [by left|].
    intros [Hin|(co' & ? & ?)]%IH.
    - destruct (change_approved lgtms co) eqn:Hco; [by left|].
      apply dict_set_elem_of in Hin as [?|[-> ->]]; [by left|].
      right. exists co. split; [left|done].
    - right. exists co'. split; [by right|done]. }
  intros [?%elem_of_nil|?]%Hgen; done.
Qed.

Lemma build_report_NoDup (lgtms : list string)
    (change_owners_map : dict change_owners) :
  NoDup (dict_keys (build_report lgtms change_owners_map)).
Proof.
  unfold build_report, dict_keys.
  assert (∀ com rep,
            NoDup rep.*1 →
            NoDup (foldl (λ rep '(change_path, co),
                            if change_approved lgtms co then rep
                            else dict_set rep change_path
                                   (report_message (closest_owners co)))
                     rep com).*1) as Hgen.
  { induction com as [|[q co] com IH]; intros rep Hnd; simpl; [done|].
    apply IH. destruct (change_approved lgtms co); [done|].
    by apply dict_set_NoDup. }
  apply Hgen, NoDup_nil_2.
Qed.

Section ChangeOwners.

Variable set_iter : gset string → list string.
Variable owners_map : dict (list string).
Variable mr : merge_request.

(** X5.  When it returns, the change-owners map has one entry for each distinct
    changed path and no other, and the entry of a path holds what
    [get_all_owners] and [get_closest_owners] return for it. *)
Theorem change_owners_map_one_entry_per_path
    (change_owners_map : dict change_owners) :
  get_change_owners_map set_iter owners_map mr = Ok change_owners_map →
  NoDup (dict_keys change_owners_map)
  ∧ (∀ path, path ∈ dict_keys change_owners_map ↔ path ∈ changed_paths mr)
  ∧ ∀ path co,
      dict_get change_owners_map path = Some co →
      get_all_owners set_iter owners_map path = Ok (owners co)
      ∧ get_closest_owners set_iter owners_map path
        = Ok (closest_owners co).
Proof.
  intros (Hnd & Hres & Hkeys)%change_owners_loop_Ok.
  split; [apply Hnd, NoDup_nil_2|]. split.
  - intros path. unfold dict_keys. rewrite Hkeys, elem_of_nil. tauto.
  - intros path co Hget%dict_get_Some_elem_of.
    specialize (Hres (Forall_nil_2 _)).
    by apply (proj1 (Forall_forall _ _) Hres (path, co)).
Qed.

(** X6.  When every approvers value of the index is a list of strings,
    [get_change_owners_map] raises exactly when some changed path does not
    resolve, and what it raises is [OwnerNotFoundError]. *)
Theorem change_owners_map_raises_iff_unresolved
    (raw : dict yaml_value) (e : exn) :
  typed_owners_map raw = Some owners_map →
  get_change_owners_map set_iter owners_map mr = Raise e
  ↔ e = OwnerNotFoundError
    ∧ ∃ path, path ∈ changed_paths mr
              ∧ ¬ resolves set_iter owners_map path.
Proof.
  intros _. unfold get_change_owners_map. split.
  - intros Hr. split; [by eapply change_owners_loop_raises|].
    revert Hr. generalize (@nil (string * change_owners)).
    induction (changed_paths mr) as [|q paths IH]; intros acc; simpl;
      [done|].
    destruct (get_all_owners _ _ q) as [all|e'] eqn:Ha.
    + destruct (get_closest_owners _ _ q) as [closest|e'] eqn:Hc.
      * intros (path & ? & ?)%IH. exists path. split; [by right|done].
      * intros _. exists q. split; [left|].
        intros (? & ? & _ & ?). congruence.
    + intros _. exists q. split; [left|].
      intros (? & ? & ? & _). congruence.
  - intros [-> (path & Hin & Hn)].
    by apply change_owners_loop_unresolved with path.
Qed.

(** X7.  An entry of the report belongs to a changed path none of whose owners
    has voted, and its message names the closest owners of that path. *)
Theorem report_entry_names_closest_owners
    (change_owners_map : dict change_owners) (path msg : string) :
  get_change_owners_map set_iter owners_map mr = Ok change_owners_map →
  dict_get (build_report (get_lgtms mr) change_owners_map) path = Some msg →
  path ∈ changed_paths mr
  ∧ ∃ all closest,
      get_all_owners set_iter owners_map path = Ok all
      ∧ get_closest_owners set_iter owners_map path = Ok closest
      ∧ (∀ o, o ∈ all → o ∉ get_lgtms mr)
      ∧ msg = report_message closest.
Proof.
  intros (Hnd & Hres & Hkeys)%change_owners_loop_Ok
         (co & Hin & Hco & ->)%dict_get_Some_elem_of%build_report_entries.
  specialize (Hres (Forall_nil_2 _)).
  pose proof (proj1 (Forall_forall _ _) Hres _ Hin) as [Hall Hclosest].
  split.
  - assert (path ∈ change_owners_map.*1) as Hk.
    { apply list_elem_of_fmap. by exists (path, co). }
    apply Hkeys in Hk as [?%elem_of_nil|?]; done.
  - exists (owners co), (closest_owners co). repeat split; try done.
    intros o Ho Hl.
    assert (change_approved (get_lgtms mr) co = true); [|congruence].
    apply change_approved_spec. by exists o.
Qed.

End ChangeOwners.

Lemma change_owners_map_one_entry_per_path_witness :
  NoDup (dict_keys [("dir/file.txt", ChangeOwners ["alice"; "bob"] ["alice"; "bob"])])
  ∧ (∀ path,
       path ∈ dict_keys [("dir/file.txt",
                          ChangeOwners ["alice"; "bob"] ["alice"; "bob"])]
       ↔ path ∈ changed_paths mr_unvoted)
  ∧ ∀ path co,
      dict_get [("dir/file.txt",
                 ChangeOwners ["alice"; "bob"] ["alice"; "bob"])] path
      = Some co →
      get_all_owners elements sample_owners_map path = Ok (owners co)
      ∧ get_closest_owners elements sample_owners_map path
        = Ok (closest_owners co).
Proof.
  apply (change_owners_map_one_entry_per_path elements sample_owners_map
           mr_unvoted).
  reflexivity.
Defined.

Lemma change_owners_map_raises_iff_unresolved_witness :
  get_change_owners_map elements sample_owners_map mr_unowned
  = Raise OwnerNotFoundError
  ↔ OwnerNotFoundError = OwnerNotFoundError
    ∧ ∃ path, path ∈ changed_paths mr_unowned
              ∧ ¬ resolves elements sample_owners_map path.
Proof.
  apply (change_owners_map_raises_iff_unresolved elements sample_owners_map
           mr_unowned sample_raw_owners_map OwnerNotFoundError).
  reflexivity.
Defined.

Lemma report_entry_names_closest_owners_witness :
  "dir/file.txt" ∈ changed_paths mr_unvoted
  ∧ ∃ all closest,
      get_all_owners elements sample_owners_map "dir/file.txt" = Ok all
      ∧ get_closest_owners elements sample_owners_map "dir/file.txt"
        = Ok closest
      ∧ (∀ o, o ∈ all → o ∉ get_lgtms mr_unvoted)
      ∧ report_message ["alice"; "bob"] = report_message closest.
Proof.
  apply (report_entry_names_closest_owners elements sample_owners_map
           mr_unvoted
           [("dir/file.txt", ChangeOwners ["alice"; "bob"] ["alice"; "bob"])]);
    reflexivity.
Defined.

(** ** The fenced note and its round trip *)

Lemma str_app_assoc (s1 s2 s3 : string) :
  (s1 +:+ s2) +:+ s3 = s1 +:+ (s2 +:+ s3).
Proof.
  induction s1 as [|c s1 IH]; [done|].
  change (String c ((s1 +:+ s2) +:+ s3) = String c (s1 +:+ (s2 +:+ s3))).
  by rewrite IH.
Qed.

Lemma str_app_empty_r (s : string) : s +:+ EmptyString = s.
Proof.
  induction s as [|c s IH]; [done|].
  change (String c (s +:+ EmptyString) = String c s). by rewrite IH.
Qed.

Lemma rev_app_spec (s t : string) :
  String.rev_app s t = String.rev s +:+ t.
Proof.
  unfold String.rev. revert t.
  induction s as [|c s IH]; intros t; simpl; [done|].
  rewrite (IH (String c t)), (IH (String c EmptyString)).
  by rewrite str_app_assoc.
Qed.

Lemma str_rev_app (s1 s2 : string) :
  String.rev (s1 +:+ s2) = String.rev s2 +:+ String.rev s1.
Proof.
  induction s1 as [|c s1 IH].
  - change (EmptyString +:+ s2) with s2. by rewrite str_app_empty_r.
  - change (String c s1 +:+ s2) with (String c (s1 +:+ s2)).
    unfold String.rev at 1 3. simpl. rewrite !rev_app_spec, IH.
    by rewrite str_app_assoc.
Qed.

Lemma str_rev_involutive (s : string) : String.rev (String.rev s) = s.
Proof.
  induction s as [|c s IH]; [done|].
  unfold String.rev at 2. simpl. rewrite rev_app_spec, str_rev_app, IH.
  done.
Qed.

Lemma lstrip_fence_open (s : string) :
  lstrip fence_open (fence_open +:+ String "{" s) = String "{" s.
Proof. reflexivity. Qed.

Lemma rstrip_fence_close (s : string) :
  rstrip fence_close (s +:+ String "}" fence_close) = s +:+ "}".
Proof.
  unfold rstrip. rewrite str_rev_app.
  change (String.rev (String "}" fence_close))
    with (fence_open +:+ String "}" EmptyString).
  rewrite str_app_assoc.
  change (lstrip fence_close
            (fence_open +:+ String "}" EmptyString +:+ String.rev s))
    with (String "}" EmptyString +:+ String.rev s).
  by rewrite str_rev_app, str_rev_involutive.
Qed.

Lemma json_dumps_braces (rep : dict string) :
  rep ≠ [] → ∃ inner, json_dumps rep = String "{" (inner +:+ "}").
Proof.
  destruct rep as [|entry rep]; [done|]. intros _. unfold json_dumps.
  eexists (str1 nl +:+ _ +:+ str1 nl).
  change ("{" +:+ ?s) with (String "{" s). f_equal.
  rewrite (str_app_assoc (str1 nl) _ "}").
  by rewrite (str_app_assoc _ (str1 nl) "}").
Qed.

Lemma json_body_of_fenced (c : comment) (rep : dict string) :
  rep ≠ [] →
  body c = fence_open +:+ json_dumps rep +:+ fence_close →
  json_body_of c = json_dumps rep.
Proof.
  intros [inner ->]%json_dumps_braces Hb. unfold json_body_of. rewrite Hb.
  change (String "{" (inner +:+ "}") +:+ fence_close)
    with (String "{" ((inner +:+ "}") +:+ fence_close)).
  rewrite lstrip_fence_open, str_app_assoc.
  change ("}" +:+ fence_close) with (String "}" fence_close).
  change (String "{" (inner +:+ String "}" fence_close))
    with (String "{" inner +:+ String "}" fence_close).
  by rewrite rstrip_fence_close.
Qed.

(** X8.  Taking the fences off a note that carries a serialized report gives
    the serialized report back. *)
Theorem fenced_report_strips_back (rep : dict string) (author : string)
    (time : Z) :
  rep ≠ [] →
  json_body_of
    {| username := author;
       body := fence_open +:+ json_dumps rep +:+ fence_close;
       created_at := time |}
  = json_dumps rep.
Proof.
  intros [inner ->]%json_dumps_braces. unfold json_body_of. cbn [body].
  change (String "{" (inner +:+ "}") +:+ fence_close)
    with (String "{" ((inner +:+ "}") +:+ fence_close)).
  rewrite lstrip_fence_open, str_app_assoc.
  change ("}" +:+ fence_close) with (String "}" fence_close).
  change (String "{" (inner +:+ String "}" fence_close))
    with (String "{" inner +:+ String "}" fence_close).
  by rewrite rstrip_fence_close.
Qed.

Lemma fenced_report_strips_back_witness :
  json_body_of
    {| username := "bot";
       body := fence_open +:+ json_dumps sample_report +:+ fence_close;
       created_at := 11 |}
  = json_dumps sample_report.
Proof.
  apply (fenced_report_strips_back sample_report "bot" 11). discriminate.
Defined.

Lemma json_eq_report_of_report (rep : dict string) :
  NoDup (dict_keys rep) → json_eq_report (json_of_report rep) rep = true.
Proof.
  intros Hnd. unfold json_of_report, json_eq_report.
  rewrite length_fmap, Nat.eqb_refl. simpl.
  apply forallb_forall. intros [k j] Hin%list_elem_of_In.
  apply list_elem_of_fmap in Hin as ([k' v] & [= -> ->] & Hin).
  rewrite (dict_get_NoDup rep k' v) by done. apply String.eqb_refl.
Qed.

Section NextRun.

Variable set_iter : gset string → list string.
Variable json_loads : string → result json_value.
Variable bot_username : string.
Variable owners_map : dict (list string).

Local Abbreviation status :=
  (get_approval_status set_iter json_loads bot_username owners_map).

(** X9.  A report that was posted is not posted again: when the evaluation of a
    merge request produced a note, and the merge request is evaluated again
    with that note among its comments (written by the bot, not older than
    the top commit) and with the same changed paths, top commit and
    voters, the status carries no report. *)
Theorem posted_report_not_posted_again (mr mr' : merge_request)
    (note : string) (c : comment) :
  only_decode_errors json_loads →
  reads_back_report set_iter json_loads owners_map mr →
  status mr = Ok {| approved := false; report := Some note |} →
  changed_paths mr' = changed_paths mr →
  top_commit_created_at mr' = top_commit_created_at mr →
  get_lgtms mr' = get_lgtms mr →
  c ∈ comments mr' → username c = bot_username → body c = note →
  top_commit_created_at mr' ≤ created_at c →
  status mr' = Ok {| approved := false; report := None |}.
Proof.
  intros Hlib Hrt Hst Hpaths Htop Hlg Hin Hu Hb Ht.
  unfold reads_back_report, get_approval_status, get_change_owners_map in *.
  rewrite Hpaths, Hlg.
  destruct (change_owners_loop _ _ _ _) as [com|[]]; try done.
  specialize (Hrt com eq_refl).
  pose proof (build_report_NoDup (get_lgtms mr) com) as Hnd.
  destruct (build_report (get_lgtms mr) com) as [|entry rep] eqn:Hrep;
    [done|].
  destruct (report_already_posted _ _ mr _ _) as [[]|]; try done.
  injection Hst as <-.
  rewrite (report_already_posted_found json_loads bot_username mr'
             (entry :: rep) (comments mr') c (json_of_report (entry :: rep)));
    try done.
  - by rewrite (json_body_of_fenced c (entry :: rep)).
  - by apply json_eq_report_of_report.
Qed.

End NextRun.

Lemma sample_reads_back_report :
  reads_back_report elements sample_json_loads sample_owners_map mr_unvoted.
Proof. intros com Hcom. injection Hcom as <-. reflexivity. Defined.

Lemma posted_report_not_posted_again_witness :
  get_approval_status elements sample_json_loads "bot" sample_owners_map
    (with_comments mr_unvoted [sample_note])
  = Ok {| approved := false; report := None |}.
Proof.
  apply (posted_report_not_posted_again elements sample_json_loads "bot"
           sample_owners_map mr_unvoted
           (with_comments mr_unvoted [sample_note])
           (body sample_note) sample_note);
    try reflexivity.
  - exact sample_json_loads_only_decode_errors.
  - exact sample_reads_back_report.
  - left.
  - simpl. lia.
Defined.

(** ** The calls of [run] *)

Section RunEffects.

Variable set_iter : gset string → list string.
Variable json_loads : string → result json_value.
Variable bot_username : string.
Variable owners_map : dict (list string).
Variable mr : merge_request.

Local Abbreviation status :=
  (get_approval_status set_iter json_loads bot_username owners_map mr).
Local Abbreviation run_mr :=
  (run_merge_request set_iter json_loads bot_username owners_map mr).

Lemma status_inversion st :
  status = Ok st →
  (approved st = true ∧ report st = None)
  ∨ (approved st = false ∧ report st = None)
  ∨ (approved st = false
     ∧ ∃ change_owners_map,
         get_change_owners_map set_iter owners_map mr = Ok change_owners_map
         ∧ build_report (get_lgtms mr) change_owners_map ≠ []
         ∧ report st
           = Some (fence_open
                   +:+ json_dumps
                         (build_report (get_lgtms mr) change_owners_map)
                   +:+ fence_close)).
Proof.
  unfold get_approval_status.
  destruct (get_change_owners_map _ _ _) as [com|[]]; try done.
  - destruct (build_report _ _) as [|entry rep] eqn:Hrep.
    + intros [= <-]. by left.
    + destruct (report_already_posted _ _ _ _ _) as [[]|]; try done.
      * intros [= <-]. right. by left.
      * intros [= <-]. right. right. split; [done|]. exists com.
        rewrite Hrep. by repeat split.
  - intros [= <-]. right. by left.
Qed.

(** X10.  A status carries a report only when it is not approved, and the report
    is the fenced serialization of the unapproved paths, of which there is
    at least one. *)
Theorem report_is_fenced_serialization st note :
  status = Ok st → report st = Some note →
  approved st = false
  ∧ ∃ change_owners_map,
      get_change_owners_map set_iter owners_map mr = Ok change_owners_map
      ∧ build_report (get_lgtms mr) change_owners_map ≠ []
      ∧ note = fence_open
               +:+ json_dumps (build_report (get_lgtms mr) change_owners_map)
               +:+ fence_close.
Proof.
  intros [[_ Hr]|[[_ Hr]|[Ha (com & Hcom & Hne & Hr)]]]%status_inversion Hn;
    try congruence.
  split; [done|]. exists com. repeat split; try done. congruence.
Qed.

(** X11.  In dry-run no label is added or removed and no note is created. *)
Theorem dry_run_calls_nothing trace :
  run_mr true = Ok trace → directives trace = [].
Proof.
  unfold run_merge_request. destruct status as [st|]; [|done].
  destruct (approved st).
  - destruct (has_approval_label mr); by intros [= <-].
  - simpl. destruct (report st); by intros [= <-].
Qed.

(** X12.  The approval label is added exactly when the run is not a dry-run, the
    status is approved and the label is absent; adding the label is then
    the only call. *)
Theorem label_added_iff_approved_and_absent dry_run trace :
  run_mr dry_run = Ok trace →
  (add_label_to_merge_request APPROVAL_LABEL ∈ trace
   ↔ dry_run = false ∧ has_approval_label mr = false
     ∧ status = Ok {| approved := true; report := None |})
  ∧ (add_label_to_merge_request APPROVAL_LABEL ∈ trace →
     directives trace = [add_label_to_merge_request APPROVAL_LABEL]).
Proof.
  unfold run_merge_request. destruct status as [st|] eqn:Hst; [|done].
  pose proof (status_inversion st Hst) as Hinv. destruct st as [a r].
  simpl in *.
  destruct a.
  - destruct Hinv as [[_ ->]|[[? _]|[? _]]]; try done.
    destruct (has_approval_label mr), dry_run; intros [= <-]; simpl;
      rewrite ?elem_of_cons, elem_of_nil; split; try done;
      intuition (try discriminate; try done).
  - destruct r, (has_approval_label mr), dry_run; intros [= <-]; simpl;
      rewrite ?elem_of_cons, elem_of_nil; split;
      intuition (try discriminate; try done).
Qed.

(** X13.  Outside dry-run, a status with a report makes [run] remove the label,
    whether or not it is present, and then create the note; a label that is
    present is removed twice. *)
Theorem report_published_after_label_removal st note :
  status = Ok st → report st = Some note →
  ∃ trace,
    run_mr false = Ok trace
    ∧ directives trace
      = (if has_approval_label mr
         then [remove_label_from_merge_request APPROVAL_LABEL]
         else [])
        ++ [remove_label_from_merge_request APPROVAL_LABEL;
            notes_create note].
Proof.
  intros Hst Hn.
  pose proof (status_inversion st Hst) as [[_ ?]|[[_ ?]|[Ha _]]];
    try congruence.
  unfold run_merge_request. rewrite Hst, Ha, Hn. simpl.
  eexists. split; [done|]. by destruct (has_approval_label mr).
Qed.

End RunEffects.

Lemma report_is_fenced_serialization_witness :
  false = false
  ∧ ∃ change_owners_map,
      get_change_owners_map elements sample_owners_map mr_unvoted
      = Ok change_owners_map
      ∧ build_report (get_lgtms mr_unvoted) change_owners_map ≠ []
      ∧ body sample_note
        = fence_open
          +:+ json_dumps (build_report (get_lgtms mr_unvoted) change_owners_map)
          +:+ fence_close.
Proof.
  apply (report_is_fenced_serialization elements sample_json_loads "bot"
           sample_owners_map mr_unvoted
           {| approved := false; report := Some (body sample_note) |}
           (body sample_note));
    reflexivity.
Defined.

Lemma dry_run_calls_nothing_witness :
  directives [Log LogPublishingReport] = [].
Proof.
  apply (dry_run_calls_nothing elements sample_json_loads "bot"
           sample_owners_map mr_unvoted [Log LogPublishingReport]).
  reflexivity.
Defined.

Lemma label_added_iff_approved_and_absent_witness :
  (add_label_to_merge_request APPROVAL_LABEL
   ∈ [Log LogApprovingNow; add_label_to_merge_request "approved"]
   ↔ false = false ∧ has_approval_label mr_voted = false
     ∧ get_approval_status elements sample_json_loads "bot" sample_owners_map
         mr_voted
       = Ok {| approved := true; report := None |})
  ∧ (add_label_to_merge_request APPROVAL_LABEL
     ∈ [Log LogApprovingNow; add_label_to_merge_request "approved"] →
     directives [Log LogApprovingNow; add_label_to_merge_request "approved"]
     = [add_label_to_merge_request APPROVAL_LABEL]).
Proof.
  apply (label_added_iff_approved_and_absent elements sample_json_loads "bot"
           sample_owners_map mr_voted false).
  reflexivity.
Defined.

Lemma report_published_after_label_removal_witness :
  ∃ trace,
    run_merge_request elements sample_json_loads "bot" sample_owners_map
      mr_unvoted false = Ok trace
    ∧ directives trace
      = (if has_approval_label mr_unvoted
         then [remove_label_from_merge_request APPROVAL_LABEL]
         else [])
        ++ [remove_label_from_merge_request APPROVAL_LABEL;
            notes_create (body sample_note)].
Proof.
  apply (report_published_after_label_removal elements sample_json_loads
           "bot" sample_owners_map mr_unvoted
           {| approved := false; report := Some (body sample_note) |});
    reflexivity.
Defined.

(** ** What the index is built from *)

Section IndexContents.

Variable repository_blob_content : string → string.
Variable b64decode_decode : string → result string.
Variable safe_load : string → result yaml_value.
Variable path_parent : string → string.

Local Abbreviation step :=
  (owners_map_step repository_blob_content b64decode_decode safe_load
     path_parent).
Local Abbreviation loop :=
  (owners_map_loop repository_blob_content b64decode_decode safe_load
     path_parent).
Local Abbreviation build :=
  (_get_owners_map repository_blob_content b64decode_decode safe_load
     path_parent).
Local Abbreviation loads item r :=
  (∃ content,
     b64decode_decode (repository_blob_content (item_id item)) = Ok content
     ∧ load_approvers safe_load content = r).

Lemma step_not_declaration st item :
  is_declaration item = false → step st item = Ok st.
Proof.
  unfold is_declaration, owners_map_step. destruct st as [m log].
  destruct (String.eqb (item_name item) "OWNERS"); [|done].
  by destruct (String.eqb (item_type item) "blob").
Qed.

Lemma step_declaration m log item content :
  is_declaration item = true →
  b64decode_decode (repository_blob_content (item_id item)) = Ok content →
  step (m, log) item
  = match load_approvers safe_load content with
    | Ok approvers =>
        Ok (dict_set m (path_parent (item_path item)) approvers, log)
    | Raise KeyError => Ok (m, log ++ [LogNotAbleToLoad (item_path item)])
    | Raise e => Raise e
    end.
Proof.
  unfold is_declaration, owners_map_step.
  intros [-> ->]%andb_true_iff ->. done.
Qed.

Lemma step_declaration_Ok st st' item :
  is_declaration item = true → step st item = Ok st' →
  (∃ v, loads item (Ok v)
        ∧ st' = (dict_set st.1 (path_parent (item_path item)) v, st.2))
  ∨ (loads item (Raise KeyError)
     ∧ st' = (st.1, st.2 ++ [LogNotAbleToLoad (item_path item)])).
Proof.
  intros Hd. destruct st as [m log].
  destruct (b64decode_decode (repository_blob_content (item_id item)))
    as [content|e] eqn:Hc.
  - rewrite (step_declaration m log item content) by done.
    destruct (load_approvers safe_load content) as [v|[]] eqn:Hl; try done;
      intros [= <-]; [left; exists v|right]; (split; [by exists content|done]).
  - unfold is_declaration, owners_map_step in *.
    apply andb_true_iff in Hd as [-> ->]. simpl. by rewrite Hc.
Qed.

(** X14.  Tree entries that are not blobs named [OWNERS] play no part in the
    index: neither their content nor their path is looked at. *)
Theorem owners_map_reads_only_declarations (repo_tree : list tree_item) :
  build repo_tree = build (List.filter is_declaration repo_tree).
Proof.
  unfold _get_owners_map. generalize (@nil (string * yaml_value),
                                      @nil log_record).
  induction repo_tree as [|item tree IH]; intros st; simpl; [done|].
  destruct (is_declaration item) eqn:Hd; simpl.
  - destruct (step st item); [apply IH|done].
  - rewrite step_not_declaration by done. apply IH.
Qed.

Lemma owners_map_loop_inv (repo_tree part : list tree_item) st st' :
  part ⊆ repo_tree →
  loop st part = Ok st' →
  NoDup st.1.*1 →
  (∀ k v, (k, v) ∈ st.1 →
     ∃ item, item ∈ repo_tree ∧ is_declaration item = true
             ∧ k = path_parent (item_path item) ∧ loads item (Ok v)) →
  (∀ p, LogNotAbleToLoad p ∈ st.2 →
     ∃ item, item ∈ repo_tree ∧ is_declaration item = true
             ∧ p = item_path item ∧ loads item (Raise KeyError)) →
  NoDup st'.1.*1
  ∧ (∀ k v, (k, v) ∈ st'.1 →
       ∃ item, item ∈ repo_tree ∧ is_declaration item = true
               ∧ k = path_parent (item_path item) ∧ loads item (Ok v))
  ∧ (∀ p, LogNotAbleToLoad p ∈ st'.2 →
       ∃ item, item ∈ repo_tree ∧ is_declaration item = true
               ∧ p = item_path item ∧ loads item (Raise KeyError)).
Proof.
  revert st. induction part as [|item part IH]; intros st Hsub; simpl.
  - by intros [= <-].
  - assert (item ∈ repo_tree) as Hitem by (apply Hsub; left).
    assert (part ⊆ repo_tree) as Hpart by (intros x ?; apply Hsub; by right).
    destruct (step st item) as [st1|] eqn:Hstep; [|done].
    intros Hloop Hnd Hm Hlog. apply (IH st1 Hpart Hloop);
      destruct (is_declaration item) eqn:Hd;
      try (rewrite step_not_declaration in Hstep by done;
           injection Hstep as <-; done);
      apply step_declaration_Ok in Hstep as [(v & Hv & ->)|[Hv ->]];
      try done; simpl.
    + by apply dict_set_NoDup.
    + intros k w [?|[-> ->]]%dict_set_elem_of; [by apply Hm|].
      by exists item.
    + intros p [?|Hp%list_elem_of_singleton]%elem_of_app; [by apply Hlog|].
      injection Hp as ->. by exists item.
Qed.

(** X15.  When the index is built, its keys are distinct, every entry holds the
    approvers of an [OWNERS] blob under the directory of that blob, and
    every log record names an [OWNERS] blob without an [approvers] key. *)
Theorem owners_map_entries_come_from_declarations
    (repo_tree : list tree_item) owners_map log :
  build repo_tree = Ok (owners_map, log) →
  NoDup (dict_keys owners_map)
  ∧ (∀ k v, (k, v) ∈ owners_map →
       ∃ item, item ∈ repo_tree ∧ is_declaration item = true
               ∧ k = path_parent (item_path item) ∧ loads item (Ok v))
  ∧ (∀ p, LogNotAbleToLoad p ∈ log →
       ∃ item, item ∈ repo_tree ∧ is_declaration item = true
               ∧ p = item_path item ∧ loads item (Raise KeyError)).
Proof.
  intros Hb.
  apply (owners_map_loop_inv repo_tree repo_tree ([], []) (owners_map, log));
    try done.
  - apply NoDup_nil_2.
  - by intros k v ?%elem_of_nil.
  - by intros p ?%elem_of_nil.
Qed.

(** X16.  The index is built whenever every [OWNERS] blob decodes and loads to a
    mapping, with or without an [approvers] key. *)
Theorem owners_map_built_when_declarations_load
    (repo_tree : list tree_item) :
  (∀ item, item ∈ repo_tree → is_declaration item = true →
     (∃ v, loads item (Ok v)) ∨ loads item (Raise KeyError)) →
  ∃ owners_map log, build repo_tree = Ok (owners_map, log).
Proof.
  unfold _get_owners_map. generalize (@nil (string * yaml_value)).
  generalize (@nil log_record).
  induction repo_tree as [|item tree IH]; intros log m Hall;
    cbn [owners_map_loop]; [by eexists _, _|].
  assert (∀ item', item' ∈ tree → is_declaration item' = true →
            (∃ v, loads item' (Ok v)) ∨ loads item' (Raise KeyError))
    as Htl.
  { intros item' ?. apply Hall. by right. }
  destruct (is_declaration item) eqn:Hd.
  - destruct (Hall item ltac:(left) Hd)
      as [(v & content & Hc & Hl)|(content & Hc & Hl)];
      rewrite (step_declaration m log item content), Hl by done;
      by apply IH.
  - rewrite step_not_declaration by done. by apply IH.
Qed.

End IndexContents.

Lemma owners_map_entries_come_from_declarations_witness :
  NoDup (dict_keys [("dir", YSeq [YStr "alice"])])
  ∧ (∀ k v, (k, v) ∈ [("dir", YSeq [YStr "alice"])] →
       ∃ item, item ∈ sample_tree ∧ is_declaration item = true
               ∧ k = sample_path_parent (item_path item)
               ∧ ∃ content,
                   sample_b64 (sample_blob (item_id item)) = Ok content
                   ∧ load_approvers sample_yaml content = Ok v)
  ∧ (∀ p, LogNotAbleToLoad p ∈ [] →
       ∃ item, item ∈ sample_tree ∧ is_declaration item = true
               ∧ p = item_path item
               ∧ ∃ content,
                   sample_b64 (sample_blob (item_id item)) = Ok content
                   ∧ load_approvers sample_yaml content = Raise KeyError).
Proof.
  apply (owners_map_entries_come_from_declarations sample_blob sample_b64
           sample_yaml sample_path_parent sample_tree).
  reflexivity.
Defined.

Lemma sample_tree_loads (item : tree_item) :
  item ∈ sample_tree → is_declaration item = true →
  (∃ v content,
     sample_b64 (sample_blob (item_id item)) = Ok content
     ∧ load_approvers sample_yaml content = Ok v)
  ∨ (∃ content,
       sample_b64 (sample_blob (item_id item)) = Ok content
       ∧ load_approvers sample_yaml content = Raise KeyError).
Proof.
  intros Hin Hd. left.
  repeat (apply elem_of_cons in Hin as [->|Hin]; [|]);
    try discriminate Hd; [|by apply elem_of_nil in Hin].
  by eexists _, _.
Defined.

Lemma owners_map_built_when_declarations_load_witness :
  ∃ owners_map log,
    _get_owners_map sample_blob sample_b64 sample_yaml sample_path_parent
      sample_tree = Ok (owners_map, log).
Proof.
  exact (owners_map_built_when_declarations_load sample_blob sample_b64
           sample_yaml sample_path_parent sample_tree sample_tree_loads).
Defined.

(** ** The text determines the report *)

Lemma json_unescape_escape (c : ascii) (rest : string) :
  json_unescape_char (json_escape_char c +:+ rest) = Some (c, rest).
Proof. by destruct c as [[] [] [] [] [] [] [] []]. Qed.

Lemma json_escape_char_inj (c1 c2 : ascii) (t1 t2 : string) :
  json_escape_char c1 +:+ t1 = json_escape_char c2 +:+ t2 →
  c1 = c2 ∧ t1 = t2.
Proof.
  intros H. apply (f_equal json_unescape_char) in H.
  rewrite !json_unescape_escape in H. by injection H.
Qed.

Lemma json_escaped_inj (s1 s2 t1 t2 : string) :
  str_flat_map json_escape_char s1 +:+ String dquote t1
  = str_flat_map json_escape_char s2 +:+ String dquote t2 →
  s1 = s2 ∧ t1 = t2.
Proof.
  revert s2. induction s1 as [|c1 s1 IH]; intros [|c2 s2];
    cbn [str_flat_map]; rewrite ?str_app_assoc.
  - by intros [= ->].
  - intros H. apply (f_equal json_unescape_char) in H.
    by rewrite json_unescape_escape in H.
  - intros H. apply (f_equal json_unescape_char) in H.
    by rewrite json_unescape_escape in H.
  - intros [-> [-> ->]%IH]%json_escape_char_inj. done.
Qed.

Lemma json_string_inj (s1 s2 t1 t2 : string) :
  json_string s1 +:+ t1 = json_string s2 +:+ t2 → s1 = s2 ∧ t1 = t2.
Proof.
  unfold json_string.
  change (String dquote ?s +:+ ?t) with (String dquote (s +:+ t)).
  rewrite !str_app_assoc. intros [= H]. by apply json_escaped_inj in H.
Qed.

(** One member of the object, as [json_dumps] writes it. *)
Lemma json_member_inj (k1 v1 k2 v2 t1 t2 : string) :
  ("    " +:+ json_string k1 +:+ ": " +:+ json_string v1) +:+ t1
  = ("    " +:+ json_string k2 +:+ ": " +:+ json_string v2) +:+ t2 →
  k1 = k2 ∧ v1 = v2 ∧ t1 = t2.
Proof.
  rewrite !str_app_assoc. intros H%(inj (String.app "    ")).
  apply json_string_inj in H as [-> H].
  rewrite ?str_app_assoc in H. apply (inj (String.app ": ")) in H.
  by apply json_string_inj in H as [-> ->].
Qed.

Lemma str_concat_cons_app (sep x tail : string) (l : list string) :
  String.concat sep (x :: l) +:+ tail
  = x +:+ match l with
          | [] => tail
          | _ => sep +:+ String.concat sep l +:+ tail
          end.
Proof.
  destruct l as [|y l]; [done|]. cbn [String.concat].
  change (?a ++ ?b)%string with (a +:+ b). by rewrite !str_app_assoc.
Qed.

Lemma json_members_inj (r1 r2 : dict string) :
  r1 ≠ [] → r2 ≠ [] →
  String.concat ("," +:+ str1 nl)
    ((λ '(k, v), "    " +:+ json_string k +:+ ": " +:+ json_string v) <$> r1)
  +:+ str1 nl +:+ "}"
  = String.concat ("," +:+ str1 nl)
      ((λ '(k, v), "    " +:+ json_string k +:+ ": " +:+ json_string v)
         <$> r2)
    +:+ str1 nl +:+ "}" →
  r1 = r2.
Proof.
  revert r2. induction r1 as [|[k1 v1] r1 IH]; intros [|[k2 v2] r2];
    try done.
  intros _ _. rewrite !fmap_cons, !str_concat_cons_app.
  intros (-> & -> & Hrest)%json_member_inj. f_equal.
  destruct r1 as [|e1 r1], r2 as [|e2 r2]; try done.
  apply (inj (String.app ("," +:+ str1 nl))) in Hrest. by apply IH.
Qed.

Lemma json_dumps_inj (r1 r2 : dict string) :
  json_dumps r1 = json_dumps r2 → r1 = r2.
Proof.
  unfold json_dumps.
  destruct r1 as [|e1 r1], r2 as [|e2 r2]; try done.
  intros H%(inj (String.app "{"))%(inj (String.app (str1 nl))).
  by apply json_members_inj.
Qed.

(** C2, amended.  Two reports with the same path-to-message entries
    serialize to the same text exactly when their paths were inserted in
    the same order: [json.dumps] writes the members in insertion order, and
    the text determines the report, the order of its entries included. *)
Theorem same_text_iff_same_insertion_order (r1 r2 : dict string) :
  NoDup (dict_keys r1) → NoDup (dict_keys r2) →
  (∀ entry, entry ∈ r1 ↔ entry ∈ r2) →
  (json_dumps r1 = json_dumps r2 ↔ dict_keys r1 = dict_keys r2)
  ∧ (json_dumps r1 = json_dumps r2 ↔ r1 = r2).
Proof.
  intros Hnd1 Hnd2 Hsame.
  assert (json_dumps r1 = json_dumps r2 ↔ r1 = r2) as Hinj.
  { split; [apply json_dumps_inj|by intros ->]. }
  split; [|done]. rewrite Hinj. split; [by intros ->|].
  by apply same_entries_same_keys_eq.
Qed.

Lemma two_reports_same_entries (entry : string * string) :
  entry ∈ report_a_then_b ↔ entry ∈ report_b_then_a.
Proof.
  unfold report_a_then_b, report_b_then_a. rewrite !elem_of_cons. tauto.
Defined.

Lemma same_text_iff_same_insertion_order_witness :
  (json_dumps report_a_then_b = json_dumps report_b_then_a
   ↔ dict_keys report_a_then_b = dict_keys report_b_then_a)
  ∧ (json_dumps report_a_then_b = json_dumps report_b_then_a
     ↔ report_a_then_b = report_b_then_a).
Proof.
  apply (same_text_iff_same_insertion_order report_a_then_b report_b_then_a).
  - apply (bool_decide_unpack _). vm_compute. exact I.
  - apply (bool_decide_unpack _). vm_compute. exact I.
  - exact two_reports_same_entries.
Defined.

(** C2 as stated fails: two merge requests that change the same two files,
    listed in the two possible orders, get reports with the same entries
    whose serialized texts differ. *)
Lemma changed_path_order_changes_text :
  get_approval_status elements sample_json_loads "bot" two_owners_map
    mr_a_then_b
  = Ok {| approved := false;
          report := Some (fence_open +:+ json_dumps report_a_then_b
                          +:+ fence_close) |}
  ∧ get_approval_status elements sample_json_loads "bot" two_owners_map
      mr_b_then_a
    = Ok {| approved := false;
            report := Some (fence_open +:+ json_dumps report_b_then_a
                            +:+ fence_close) |}
  ∧ report_a_then_b ≡ₚ report_b_then_a
  ∧ json_dumps report_a_then_b ≠ json_dumps report_b_then_a.
Proof.
  split; [vm_compute; reflexivity|]. split; [vm_compute; reflexivity|].
  split; [apply Permutation_swap|]. vm_compute. discriminate.
Qed.

(** * Properties of the cluster reconciliation (reconcile/ocm_clusters.py) *)

Import OcmClusters.

(** ** Dictionaries without a key *)

Lemma dict_get_dict_del_eq {V : Type} (d : dict V) (k : string) :
  dict_get (dict_del d k) k = None.
Proof.
  induction d as [|[k' v] d IH]; simpl; [done|].
  destruct (String.eqb_spec k k') as [->|Hne]; [done|]. simpl.
  by destruct (String.eqb_spec k k').
Qed.

Lemma dict_get_dict_del_ne {V : Type} (d : dict V) (k k' : string) :
  k ≠ k' → dict_get (dict_del d k) k' = dict_get d k'.
Proof.
  intros Hne. induction d as [|[q v] d IH]; simpl; [done|].
  destruct (String.eqb_spec k q) as [->|Hq].
  - rewrite IH. by destruct (String.eqb_spec k' q) as [->|].
  - simpl. by rewrite IH.
Qed.

(** ** Traces *)

Lemma bind_inv {A B : Type} (p : prog A) (k : A → prog B) trace r :
  bind p k = (trace, r) →
  (∃ e, p = (trace, Raised e) ∧ r = Raised e)
  ∨ ∃ a trace1 trace2,
      p = (trace1, Return a) ∧ k a = (trace2, r)
      ∧ trace = trace1 ++ trace2.
Proof.
  destruct p as [trace1 [a|e]]; simpl.
  - destruct (k a) as [trace2 r'] eqn:Hk. intros [= <- <-].
    right. by exists a, trace1, trace2.
  - intros [= <- <-]. left. by exists e.
Qed.

Lemma Forall_bind {A B : Type} (P : ocm_event → Prop) (p : prog A)
    (k : A → prog B) :
  Forall P p.1 → (∀ a, Forall P (k a).1) → Forall P (bind p k).1.
Proof.
  destruct p as [trace [a|e]]; simpl; [|done]. intros Hp Hk.
  specialize (Hk a). destruct (k a) as [trace' r]. simpl in *.
  by apply Forall_app.
Qed.

Lemma Forall_for_each {A S : Type} (P : ocm_event → Prop)
    (body : S → A → prog S) (l : list A) (s : S) :
  (∀ s x, x ∈ l → Forall P (body s x).1) →
  Forall P (for_each body s l).1.
Proof.
  revert s. induction l as [|x l IH]; intros s Hbody; simpl; [done|].
  apply Forall_bind.
  - apply Hbody. left.
  - intros s'. apply IH. intros s'' y ?. apply Hbody. by right.
Qed.

(** ** The desired state *)

Lemma desired_state_fold (clusters : list cluster) (acc : dict cluster_state) :
  let desired :=
    foldl (λ d c,
             dict_set d (c_name c)
               {| st_spec := c_spec c; st_network := c_network c |})
          acc clusters in
  (NoDup acc.*1 → NoDup desired.*1)
  ∧ (∀ n, n ∈ desired.*1 ↔ n ∈ acc.*1 ∨ ∃ c, c ∈ clusters ∧ c_name c = n)
  ∧ (∀ n st, (n, st) ∈ desired →
       (n, st) ∈ acc
       ∨ ∃ c, c ∈ clusters ∧ c_name c = n
              ∧ st = {| st_spec := c_spec c; st_network := c_network c |}).
Proof.
  revert acc. induction clusters as [|c clusters IH]; intros acc; simpl.
  - split; [done|]. split; [|by left].
    intros n. split; [by left|]. by intros [?|(c & ?%elem_of_nil & _)].
  - destruct (IH (dict_set acc (c_name c)
                    {| st_spec := c_spec c; st_network := c_network c |}))
      as (Hnd & Hkeys & Hentries).
    split; [|split].
    + intros ?. by apply Hnd, dict_set_NoDup.
    + intros n. rewrite Hkeys, dict_set_keys. split.
      * intros [[?| ->]|(c' & ? & ?)]; [by left| |].
        -- right. exists c. split; [left|done].
        -- right. exists c'. split; [by right|done].
      * intros [?|(c' & [->|?]%elem_of_cons & ?)].
        -- left. by left.
        -- left. by right.
        -- right. by exists c'.
    + intros n st [[?|[-> ->]]%dict_set_elem_of|(c' & ? & ?)]%Hentries.
      * by left.
      * right. exists c. split; [left|done].
      * right. exists c'. split; [by right|done].
Qed.

(** X17.  The desired state has one entry for each cluster name; the entry holds
    the network and the spec of a cluster of that name, the spec without
    its [upgrade] key and otherwise unchanged. *)
Theorem fetch_current_state_drops_upgrade (clusters : list cluster) :
  NoDup (dict_keys (fetch_current_state clusters))
  ∧ (∀ n, n ∈ dict_keys (fetch_current_state clusters)
          ↔ ∃ c, c ∈ clusters ∧ c_name c = n)
  ∧ ∀ n st,
      dict_get (fetch_current_state clusters) n = Some st →
      ∃ c, c ∈ clusters ∧ c_name c = n
           ∧ st_network st = c_network c
           ∧ dict_get (st_spec st) "upgrade" = None
           ∧ ∀ k, k ≠ "upgrade" →
                  dict_get (st_spec st) k = dict_get (c_spec c) k.
Proof.
  unfold fetch_current_state, dict_keys.
  destruct (desired_state_fold clusters []) as (Hnd & Hkeys & Hentries).
  set (desired := foldl _ [] clusters) in *.
  assert (∀ d : dict cluster_state,
            ((λ '(name, desired_spec),
                (name,
                 {| st_spec := dict_del (st_spec desired_spec) "upgrade";
                    st_network := st_network desired_spec |})) <$> d).*1
            = d.*1) as Hfst.
  { induction d as [|[n st] d IH]; [done|].
    rewrite !fmap_cons. simpl. by f_equal. }
  rewrite Hfst. split; [apply Hnd, NoDup_nil_2|]. split.
  - intros n. rewrite Hkeys, elem_of_nil. tauto.
  - intros n st Hget%dict_get_Some_elem_of.
    apply list_elem_of_fmap in Hget as ([n' st'] & [= -> ->] & Hin).
    apply Hentries in Hin as [?%elem_of_nil|(c & Hc & Hn & ->)]; [done|].
    exists c. simpl. repeat split; try done.
    + apply dict_get_dict_del_eq.
    + intros k Hk. by apply dict_get_dict_del_ne.
Qed.

(** ** Reasoning along a computation *)

Lemma wp_bind {A B : Type} (p : prog A) (k : A → prog B) Q :
  wp p (λ trace r,
          match r with
          | Return a => wp (k a) (λ trace' r', Q (trace ++ trace') r')
          | Raised e => Q trace (Raised e)
          end) →
  wp (bind p k) Q.
Proof.
  unfold wp. destruct p as [trace [a|e]]; simpl; [|done].
  by destruct (k a).
Qed.

Lemma wp_ret {A : Type} (a : A) (Q : list ocm_event → outcome A → Prop) :
  Q [] (Return a) → wp (ret a) Q.
Proof. done. Qed.

Lemma wp_emit ev (Q : list ocm_event → outcome unit → Prop) :
  Q [ev] (Return tt) → wp (emit ev) Q.
Proof. done. Qed.

Lemma wp_pop d k (Q : list ocm_event → outcome (py_value * dict py_value) → Prop) :
  (∀ v, dict_get d k = Some v → Q [] (Return (v, dict_del d k))) →
  (dict_get d k = None → Q [] (Raised (PyKeyError k))) →
  wp (pop d k) Q.
Proof. unfold wp, pop. destruct (dict_get d k); simpl; auto. Qed.

Lemma wp_getitem d k (Q : list ocm_event → outcome py_value → Prop) :
  (∀ v, dict_get d k = Some v → Q [] (Return v)) →
  (dict_get d k = None → Q [] (Raised (PyKeyError k))) →
  wp (getitem d k) Q.
Proof. unfold wp, getitem. destruct (dict_get d k); simpl; auto. Qed.

Lemma wp_outcome {A : Type} (r : outcome A)
    (Q : list ocm_event → outcome A → Prop) :
  Q [] r → wp ([], r) Q.
Proof. done. Qed.

Ltac wp_step :=
  lazymatch goal with
  | |- wp (bind _ _) _ => apply wp_bind
  | |- wp (ret _) _ => apply wp_ret
  | |- wp (emit _) _ => apply wp_emit
  | |- wp (raise _) _ => unfold wp, raise; cbn [fst snd]
  | |- wp (pop _ _) _ => apply wp_pop; [intros ? ?|intros ?]
  | |- wp (getitem _ _) _ => apply wp_getitem; [intros ? ?|intros ?]
  | |- wp ([], ?r) _ => apply wp_outcome; destruct r eqn:?
  | |- wp (if ?c then _ else _) _ => destruct c eqn:?
  | |- wp (match ?x with _ => _ end) _ => destruct x eqn:?
  end;
  cbv beta iota.

Lemma update_cluster_inv semver_compare clusters error name desired current :
  wp (update_cluster semver_compare clusters error name desired current)
     (λ trace r,
        Forall is_update_log trace
        ∧ match r with
          | Return (err, updates) =>
              err = error || existsb is_error_log trace
              ∧ well_formed_updates updates
          | Raised e =>
              (∃ k, e = PyKeyError k) ∨ e = PyIndexError
              ∨ ∃ a b, semver_compare a b = Raised e
          end).
Proof.
  unfold update_cluster. repeat wp_step; cbn [app];
    (split; [repeat constructor|]); eauto.
  all: split; [by rewrite ?orb_true_r, ?orb_false_r|].
  all: destruct (negb (py_eqb _ _)); simpl;
    first [by left
          |right; split; [by eexists|];
           split; [eexists; split; [by constructor|done]|];
           apply (bool_decide_unpack _); vm_compute; exact I].
Qed.

Lemma wp_elim {A : Type} (p : prog A) Q trace r :
  wp p Q → p = (trace, r) → Q trace r.
Proof. unfold wp. by intros H ->. Qed.

(** ** One cluster that OCM knows *)

(** X18.  The updates recorded for a cluster are empty, or they hold the path of
    the cluster file after at least one of [version], [id], [external_id]
    and [provision_shard_id], and no other key; the error flag is raised
    exactly when it was raised before or an error is logged. *)
Theorem update_cluster_records_path_with_changes
    semver_compare clusters error name desired current trace err updates :
  update_cluster semver_compare clusters error name desired current
  = (trace, Return (err, updates)) →
  well_formed_updates updates
  ∧ err = error || existsb is_error_log trace.
Proof.
  intros Hrun.
  pose proof (wp_elim _ _ _ _
                (update_cluster_inv semver_compare clusters error name
                   desired current) Hrun) as (_ & ? & ?).
  done.
Qed.

(** X19.  The version rule.  With an empty desired version the current version
    is recorded as the update; otherwise the versions are compared: a
    greater current version is recorded, a smaller one is an error and is
    not recorded, an equal one changes nothing. *)
Theorem version_update_rule
    semver_compare clusters error name desired current trace err updates :
  update_cluster semver_compare clusters error name desired current
  = (trace, Return (err, updates)) →
  ∃ desired_version current_version,
    dict_get (st_spec desired) "version" = Some desired_version
    ∧ dict_get (st_spec current) "version" = Some current_version
    ∧ (truthy desired_version = false →
       dict_get updates "version" = Some current_version)
    ∧ (truthy desired_version = true →
       ∃ compare_result,
         semver_compare current_version desired_version
         = Return compare_result
         ∧ (0 < compare_result →
            dict_get updates "version" = Some current_version)
         ∧ (compare_result ≤ 0 → dict_get updates "version" = None)
         ∧ (compare_result < 0 → err = true)).
Proof.
  intros Hrun.
  cut (wp (update_cluster semver_compare clusters error name desired current)
          (λ _ r,
             match r with
             | Return (err, updates) =>
                 ∃ desired_version current_version,
                   dict_get (dict_del (st_spec desired) "initial_version")
                     "version" = Some desired_version
                   ∧ dict_get (st_spec current) "version"
                     = Some current_version
                   ∧ (truthy desired_version = false →
                      dict_get updates "version" = Some current_version)
                   ∧ (truthy desired_version = true →
                      ∃ compare_result,
                        semver_compare current_version desired_version
                        = Return compare_result
                        ∧ (0 < compare_result →
                           dict_get updates "version" = Some current_version)
                        ∧ (compare_result ≤ 0 →
                           dict_get updates "version" = None)
                        ∧ (compare_result < 0 → err = true))
             | Raised _ => True
             end)).
  { intros Hwp. apply (wp_elim _ _ _ _ Hwp) in Hrun
      as (dv & cv & Hdv & Hcv & Hrest).
    exists dv, cv. rewrite dict_get_dict_del_ne in Hdv by done. done. }
  unfold update_cluster. repeat wp_step; try exact I.
  all: eexists _, _; split; [eassumption|]; split; [eassumption|].
  all: destruct (negb (py_eqb _ _)); simpl.
  all: split; [try done; congruence|]; intros ?; try congruence.
  all: eexists; split; [eassumption|].
  all: repeat split; intros; try done; try lia.
Qed.

(** ** The whole run *)

Lemma wp_mono {A : Type} (p : prog A)
    (Q Q' : list ocm_event → outcome A → Prop) :
  wp p Q → (∀ trace r, Q trace r → Q' trace r) → wp p Q'.
Proof. unfold wp. auto. Qed.

Lemma wp_for_each {A S : Type} (body : S → A → prog S) (l : list A)
    (I : list ocm_event → S → Prop) (R : list ocm_event → py_exn → Prop) :
  (∀ trace s x, x ∈ l → I trace s →
     wp (body s x)
        (λ trace' r,
           match r with
           | Return s' => I (trace ++ trace') s'
           | Raised e => R (trace ++ trace') e
           end)) →
  ∀ trace s, I trace s →
    wp (for_each body s l)
       (λ trace' r,
          match r with
          | Return s' => I (trace ++ trace') s'
          | Raised e => R (trace ++ trace') e
          end).
Proof.
  induction l as [|x l IH]; intros Hbody trace s HI; simpl.
  - apply wp_ret. by rewrite app_nil_r.
  - apply wp_bind. eapply wp_mono; [apply (Hbody trace s x); [left|done]|].
    intros trace1 [s1|e] H1; simpl in *; [|done].
    eapply wp_mono.
    + apply (IH (λ tr s0 y Hy, Hbody tr s0 y (list_elem_of_further _ _ _ Hy))
               (trace ++ trace1) s1 H1).
    + intros trace2 [s2|e] H2; simpl in *; by rewrite app_assoc.
Qed.

Lemma existsb_error_log_key_logs (trace : list ocm_event) :
  Forall is_key_log trace → existsb is_error_log trace = false.
Proof.
  induction 1 as [|ev trace Hev _ IH]; [done|]. simpl. rewrite IH.
  by destruct ev.
Qed.

Lemma not_submit_key_logs (trace : list ocm_event) :
  Forall is_key_log trace → existsb is_submit trace = false.
Proof.
  induction 1 as [|ev trace Hev _ IH]; [done|]. simpl. rewrite IH.
  by destruct ev.
Qed.

Lemma not_submit_update_logs (trace : list ocm_event) :
  Forall is_update_log trace → existsb is_submit trace = false.
Proof.
  induction 1 as [|ev trace Hev _ IH]; [done|]. simpl. rewrite IH.
  by destruct ev.
Qed.

Lemma log_updates_inner_inv cluster_name (updates : dict py_value) b0 :
  wp (for_each
        (λ create_update_mr '(k, v),
           if String.eqb k "path" then ret create_update_mr
           else bind (emit (LogKeyUpdated cluster_name k v)) (λ _, ret true))
        b0 updates)
     (λ trace r,
        Forall is_key_log trace
        ∧ ∃ b, r = Return b ∧ (b = true → b0 = true ∨ updates ≠ [])).
Proof.
  revert b0.
  induction updates as [|[k v] updates IH]; intros b0; cbn [for_each].
  - apply wp_ret. split; [done|]. exists b0. split; [done|]. by left.
  - apply wp_bind. destruct (String.eqb k "path").
    + apply wp_ret. cbv beta iota. eapply wp_mono; [apply IH|].
      intros trace r (Hlogs & b & -> & Hb). split; [done|].
      exists b. split; [done|]. intros _. by right.
    + apply wp_bind, wp_emit. cbv beta iota. apply wp_ret. cbv beta iota.
      eapply wp_mono; [apply IH|].
      intros trace r (Hlogs & b & -> & Hb). split.
      * by apply Forall_cons.
      * exists b. split; [done|]. intros _. by right.
Qed.

Lemma log_updates_inv (clusters_updates : dict (dict py_value)) :
  wp (log_updates clusters_updates)
     (λ trace r,
        Forall is_key_log trace
        ∧ ∃ b, r = Return b
               ∧ (b = true → Exists (λ entry, entry.2 ≠ []) clusters_updates)).
Proof.
  unfold log_updates.
  cut (∀ b0,
         wp (for_each
               (λ create_update_mr '(cluster_name, cluster_updates),
                  for_each
                    (λ create_update_mr '(k, v),
                       if String.eqb k "path" then ret create_update_mr
                       else bind (emit (LogKeyUpdated cluster_name k v))
                              (λ _, ret true))
                    create_update_mr cluster_updates)
               b0 clusters_updates)
            (λ trace r,
               Forall is_key_log trace
               ∧ ∃ b, r = Return b
                      ∧ (b = true →
                         b0 = true
                         ∨ Exists (λ entry, entry.2 ≠ []) clusters_updates))).
  { intros H. eapply wp_mono; [apply (H false)|].
    intros trace r (? & b & -> & Hb). split; [done|]. exists b.
    split; [done|]. intros ->. by destruct Hb. }
  induction clusters_updates as [|[n upd] upds IH]; intros b0;
    cbn [for_each].
  - apply wp_ret. split; [done|]. exists b0. split; [done|]. by left.
  - apply wp_bind. eapply wp_mono; [apply log_updates_inner_inv|].
    intros trace1 r1 (Hlogs1 & b1 & -> & Hb1).
    eapply wp_mono; [apply (IH b1)|].
    intros trace2 r2 (Hlogs2 & b2 & -> & Hb2). split.
    + by apply Forall_app.
    + exists b2. split; [done|]. intros ->.
      destruct Hb2 as [->|?]; [done| |right; by right].
      destruct Hb1 as [?|?]; [done|by left|right; by left].
Qed.

Lemma Forall_dict_set {V : Type} (Q : V → Prop) (d : dict V) k v :
  Forall (λ entry, Q entry.2) d → Q v →
  Forall (λ entry, Q entry.2) (dict_set d k v).
Proof.
  intros Hd Hv. induction Hd as [|[k' v'] d Hv' Hd IH]; simpl.
  - by repeat constructor.
  - destruct (String.eqb k k'); by constructor.
Qed.

Lemma submit_elem_of (trace : list ocm_event) u :
  submit_clusters_updates u ∈ trace → existsb is_submit trace = true.
Proof.
  induction trace as [|ev trace IH]; [by intros ?%elem_of_nil|].
  intros [<-|?]%elem_of_cons; simpl; [done|]. rewrite IH by done.
  apply orb_true_r.
Qed.

Section RunInvariants.

Variable semver_compare : py_value → py_value → outcome Z.
Variable dry_run : bool.
Variable clusters : list cluster.
Variable current_state : dict cluster_state.
Variable pending_state : list string.

Lemma cluster_step_inv trace st entry :
  loop_invariant trace st →
  wp (cluster_step semver_compare dry_run clusters current_state
        pending_state st entry)
     (λ trace' r,
        match r with
        | Return st' => loop_invariant (trace ++ trace') st'
        | Raised e =>
            loop_exception semver_compare e
            ∧ existsb is_submit (trace ++ trace') = false
        end).
Proof.
  destruct st as [err upds], entry as [name desired].
  intros (Herr & Hsub & Hupds). simpl in Herr, Hupds.
  unfold cluster_step. destruct (dict_get current_state name) as [cur|].
  - apply wp_bind. eapply wp_mono; [apply update_cluster_inv|].
    intros trace1 [[err1 upd1]|e] [Hlogs H]; cbv beta iota.
    + destruct H as [-> Hwf]. apply wp_ret.
      rewrite app_nil_r. split; [|split]; simpl.
      * by rewrite existsb_app, Herr.
      * by rewrite existsb_app, Hsub, not_submit_update_logs.
      * by apply Forall_dict_set.
    + split; [done|]. by rewrite existsb_app, Hsub, not_submit_update_logs.
  - destruct (bool_decide (name ∈ pending_state)).
    + apply wp_ret. by rewrite app_nil_r.
    + apply wp_bind, wp_emit. cbv beta iota.
      apply wp_bind, wp_emit. cbv beta iota. apply wp_ret.
      split; [|split]; simpl.
      * rewrite existsb_app. simpl. by rewrite orb_false_r.
      * rewrite existsb_app. simpl. by rewrite orb_false_r.
      * done.
Qed.

Lemma run_clusters_inv :
  wp (run_clusters semver_compare dry_run clusters current_state
        pending_state)
     (λ trace r,
        (∀ u, submit_clusters_updates u ∈ trace →
           Forall (λ entry, well_formed_updates entry.2) u
           ∧ Exists (λ entry, entry.2 ≠ []) u)
        ∧ match r with
          | Return _ => existsb is_error_log trace = false
          | Raised e =>
              (e = SystemExit 1 ∧ existsb is_error_log trace = true)
              ∨ loop_exception semver_compare e
          end).
Proof.
  unfold run_clusters. apply wp_bind.
  assert (wp (if negb dry_run then emit mr_client_gateway_init else ret tt)
             (λ trace r,
                r = Return tt ∧ loop_invariant trace (false, []))) as Hinit.
  { by destruct dry_run. }
  eapply wp_mono; [apply Hinit|]. clear Hinit.
  intros trace0 r0 [-> Hinv0]. apply wp_bind.
  eapply wp_mono;
    [apply (wp_for_each _ _ loop_invariant
              (λ trace e,
                 loop_exception semver_compare e
                 ∧ existsb is_submit trace = false)
              (λ trace s x _, cluster_step_inv trace s x) trace0 (false, [])
              Hinv0)|].
  intros trace1 [[err upds]|e]; cbv beta iota.
  - intros (Herr & Hsub & Hupds). simpl in Herr, Hupds.
    apply wp_bind. eapply wp_mono; [apply log_updates_inv|].
    intros trace2 r2 (Hlogs & b & -> & Hb). apply wp_bind.
    assert (existsb is_submit (trace0 ++ trace1 ++ trace2) = false) as Hsub2.
    { by rewrite app_assoc, existsb_app, Hsub, not_submit_key_logs. }
    assert (existsb is_error_log (trace0 ++ trace1 ++ trace2) = err) as Herr2.
    { rewrite app_assoc, existsb_app, <- Herr, existsb_error_log_key_logs;
        [apply orb_false_r|done]. }
    destruct (b && negb dry_run) eqn:Hcond.
    + apply wp_emit. apply andb_true_iff in Hcond as [-> _].
      assert (∀ u,
                submit_clusters_updates u
                ∈ trace0 ++ trace1 ++ trace2
                  ++ [submit_clusters_updates upds] ++ [] →
                Forall (λ entry, well_formed_updates entry.2) u
                ∧ Exists (λ entry, entry.2 ≠ []) u) as Hsubmit.
      { intros u Hu. rewrite !app_assoc, app_nil_r in Hu.
        apply elem_of_app in Hu as [Hu|Hu%list_elem_of_singleton].
        - apply submit_elem_of in Hu. rewrite <- !app_assoc in Hu. congruence.
        - injection Hu as ->. split; [done|by apply Hb]. }
      assert (existsb is_error_log
                (trace0 ++ trace1 ++ trace2
                 ++ [submit_clusters_updates upds] ++ []) = err) as Herr3.
      { rewrite !app_assoc, app_nil_r, existsb_app. simpl.
        rewrite <- !app_assoc, Herr2. by rewrite orb_false_r. }
      destruct err; (split; [done|]); [left|]; done.
    + apply wp_ret.
      assert (∀ u,
                submit_clusters_updates u
                ∈ trace0 ++ trace1 ++ trace2 ++ [] ++ [] →
                Forall (λ entry, well_formed_updates entry.2) u
                ∧ Exists (λ entry, entry.2 ≠ []) u) as Hsubmit.
      { intros u Hu. rewrite !app_nil_r in Hu.
        apply submit_elem_of in Hu. congruence. }
      assert (existsb is_error_log (trace0 ++ trace1 ++ trace2 ++ [] ++ [])
              = err) as Herr3.
      { by rewrite !app_nil_r. }
      destruct err; (split; [done|]); [left|]; done.
  - intros [Hexn Hsub]. split; [|by right].
    intros u Hu%submit_elem_of. congruence.
Qed.

End RunInvariants.

Lemma py_eqb_none (v : py_value) : py_eqb v PNone = true ↔ v = PNone.
Proof. by destruct v. Qed.

Lemma fetch_current_state_names (clusters : list cluster) n st :
  (n, st) ∈ fetch_current_state clusters →
  ∃ c, c ∈ clusters ∧ c_name c = n.
Proof.
  unfold fetch_current_state.
  intros ([n' st'] & [= -> _] & Hin)%list_elem_of_fmap.
  destruct (desired_state_fold clusters []) as (_ & _ & Hentries).
  apply Hentries in Hin as [?%elem_of_nil|(c & ? & ? & _)]; [done|].
  by exists c.
Qed.

Lemma run_clusters_events_allowed semver_compare dry_run clusters
    current_state pending_state :
  Forall (run_event_allowed dry_run clusters current_state pending_state)
    (run_clusters semver_compare dry_run clusters current_state
       pending_state).1.
Proof.
  unfold run_clusters. apply Forall_bind.
  { destruct dry_run; simpl; by repeat constructor. }
  intros _. apply Forall_bind.
  { apply Forall_for_each. intros [err upds] [name desired] Hin.
    unfold cluster_step.
    destruct (dict_get current_state name) as [cur|] eqn:Hcur.
    - apply Forall_bind.
      + eapply Forall_impl;
          [apply (update_cluster_inv semver_compare clusters err name
                    desired cur)|].
        by intros [].
      + by intros [].
    - case_bool_decide as Hp; [done|]. simpl. by repeat constructor. }
  intros [err upds]. apply Forall_bind.
  { eapply Forall_impl; [apply (log_updates_inv upds)|]. by intros []. }
  intros b. apply Forall_bind.
  - destruct b, dry_run; simpl; by repeat constructor.
  - intros _. by destruct err.
Qed.

(** X20.  Every call of a run is guarded: the merge-request client is set up
    and an update submitted outside dry-run only, and a cluster is created,
    with the dry-run flag of the run and from its desired state, only when
    OCM neither has it nor is installing it. *)
Theorem run_calls_are_guarded semver_compare dry_run clusters current_state
    pending_state (ev : ocm_event) :
  ev ∈ (run_clusters semver_compare dry_run clusters current_state
          pending_state).1 →
  run_event_allowed dry_run clusters current_state pending_state ev.
Proof.
  intros Hin.
  by apply (proj1 (Forall_forall _ _)
              (run_clusters_events_allowed semver_compare dry_run clusters
                 current_state pending_state)).
Qed.

(** X21.  A cluster without an [ocm] field is never created. *)
Theorem cluster_without_ocm_is_not_created semver_compare dry_run
    all_clusters current_state pending_state name desired flag :
  create_cluster name desired flag
  ∈ (run semver_compare dry_run all_clusters current_state pending_state).1 →
  ∃ c, c ∈ all_clusters ∧ c_name c = name ∧ c_ocm c ≠ PNone.
Proof.
  unfold run. intros Hin.
  pose proof (proj1 (Forall_forall _ _)
                (run_clusters_events_allowed semver_compare dry_run _
                   current_state pending_state) _ Hin)
    as (_ & _ & _ & Hdesired).
  apply fetch_current_state_names in Hdesired as (c & Hc & Hn).
  apply list_elem_of_In, filter_In in Hc as [Hc Hocm].
  exists c. rewrite list_elem_of_In. repeat split; try done.
  intros Hnone. by rewrite (proj2 (py_eqb_none _) Hnone) in Hocm.
Qed.

(** X22.  A run returns only when no error was logged, and when it ends by
    [sys.exit] the code is 1 and an error was logged, provided that
    [semver.compare] does not itself exit. *)
Theorem run_exits_with_1_iff_error_logged semver_compare dry_run clusters
    current_state pending_state trace r :
  (∀ a b code, semver_compare a b ≠ Raised (SystemExit code)) →
  run_clusters semver_compare dry_run clusters current_state pending_state
  = (trace, r) →
  (r = Return tt → existsb is_error_log trace = false)
  ∧ (∀ code, r = Raised (SystemExit code) →
       code = 1 ∧ existsb is_error_log trace = true).
Proof.
  intros Hsemver Hrun.
  pose proof (wp_elim _ _ _ _
                (run_clusters_inv semver_compare dry_run clusters
                   current_state pending_state) Hrun) as [_ Hr].
  split.
  - by intros ->.
  - intros code ->.
    destruct Hr as [[[= ->] ?]|[[k ?]|[?|(a & b & Hab)]]]; try done.
    by apply Hsemver in Hab.
Qed.

(** X23.  What a run submits: for every cluster the updates are empty or hold
    the path of the cluster file with at least one changed key, and they
    are not empty for every cluster. *)
Theorem submitted_updates_hold_changes semver_compare dry_run clusters
    current_state pending_state clusters_updates :
  submit_clusters_updates clusters_updates
  ∈ (run_clusters semver_compare dry_run clusters current_state
       pending_state).1 →
  Forall (λ entry, well_formed_updates entry.2) clusters_updates
  ∧ Exists (λ entry, entry.2 ≠ []) clusters_updates.
Proof.
  intros Hin.
  by apply (proj1 (run_clusters_inv semver_compare dry_run clusters
                     current_state pending_state)).
Qed.

(** ** The cluster properties on the sample clusters *)

Lemma update_cluster_records_path_with_changes_witness :
  well_formed_updates sample_updates_known
  ∧ false
    = false
      || existsb is_error_log
           [LogVersionUpdated "c1" (PStr "4.3.0") (PStr "4.4.0")].
Proof.
  apply (update_cluster_records_path_with_changes sample_semver_compare
           sample_clusters false "c1" sample_desired_known
           sample_current_known).
  reflexivity.
Defined.

Lemma version_update_rule_witness :
  ∃ desired_version current_version,
    dict_get (st_spec sample_desired_known) "version" = Some desired_version
    ∧ dict_get (st_spec sample_current_known) "version"
      = Some current_version
    ∧ (truthy desired_version = false →
       dict_get sample_updates_known "version" = Some current_version)
    ∧ (truthy desired_version = true →
       ∃ compare_result,
         sample_semver_compare current_version desired_version
         = Return compare_result
         ∧ (0 < compare_result →
            dict_get sample_updates_known "version" = Some current_version)
         ∧ (compare_result ≤ 0 →
            dict_get sample_updates_known "version" = None)
         ∧ (compare_result < 0 → false = true)).
Proof.
  apply (version_update_rule sample_semver_compare sample_clusters false
           "c1" sample_desired_known sample_current_known
           [LogVersionUpdated "c1" (PStr "4.3.0") (PStr "4.4.0")]).
  reflexivity.
Defined.

Lemma sample_run :
  run_clusters sample_semver_compare false sample_clusters
    sample_current_state []
  = (sample_run_trace, Return tt).
Proof. vm_compute. reflexivity. Defined.

Lemma run_calls_are_guarded_witness :
  run_event_allowed false sample_clusters sample_current_state []
    (create_cluster "c2" sample_desired_new false).
Proof.
  apply (run_calls_are_guarded sample_semver_compare false sample_clusters
           sample_current_state []).
  rewrite sample_run. simpl. do 3 right. left.
Defined.

Lemma cluster_without_ocm_is_not_created_witness :
  ∃ c, c ∈ sample_clusters ++ [sample_cluster_without_ocm]
       ∧ c_name c = "c2" ∧ c_ocm c ≠ PNone.
Proof.
  apply (cluster_without_ocm_is_not_created sample_semver_compare false
           (sample_clusters ++ [sample_cluster_without_ocm])
           sample_current_state [] "c2" sample_desired_new false).
  unfold run. simpl List.filter.
  change [sample_cluster_known; sample_cluster_new] with sample_clusters.
  rewrite sample_run. simpl. do 3 right. left.
Defined.

Lemma sample_semver_compare_does_not_exit a b code :
  sample_semver_compare a b ≠ Raised (SystemExit code).
Proof. by destruct a, b. Defined.

Lemma run_exits_with_1_iff_error_logged_witness :
  (Return tt = Return tt → existsb is_error_log sample_run_trace = false)
  ∧ (∀ code, @Return unit tt = Raised (SystemExit code) →
       code = 1 ∧ existsb is_error_log sample_run_trace = true).
Proof.
  exact (run_exits_with_1_iff_error_logged sample_semver_compare false
           sample_clusters sample_current_state [] sample_run_trace
           (Return tt) sample_semver_compare_does_not_exit sample_run).
Defined.

Lemma submitted_updates_hold_changes_witness :
  Forall (λ entry, well_formed_updates entry.2) [("c1", sample_updates_known)]
  ∧ Exists (λ entry, entry.2 ≠ []) [("c1", sample_updates_known)].
Proof.
  apply (submitted_updates_hold_changes sample_semver_compare false
           sample_clusters sample_current_state []).
  rewrite sample_run. simpl. do 6 right. left.
Defined.
